(** * bayeslite [math_util]: continued fractions, sequence reducers and the
      regularized incomplete gamma functions

  A shallow embedding of [src/math_util.py].  Python floats are IEEE 754
  binary64 numbers; they are modelled by [spec_float] with precision 53 and
  maximal exponent 1024, whose operations round to nearest, ties to even.
  Python exceptions are modelled by an error monad, generators by explicit
  state machines, and loops over possibly infinite generators by a bound on
  the number of iterations. *)

From Stdlib Require Import ZArith List Bool Lia QArith Qabs.
From Stdlib Require Import Floats.SpecFloat.
Import ListNotations.
Close Scope Q_scope.

Set Implicit Arguments.

(** ** Binary64 arithmetic as Python sees it *)

Definition float : Set := spec_float.

Module F.

Definition prec : Z := 53.
Definition emax : Z := 1024.

Definition add : float -> float -> float := SFadd prec emax.
Definition sub : float -> float -> float := SFsub prec emax.
Definition mul : float -> float -> float := SFmul prec emax.
Definition div : float -> float -> float := SFdiv prec emax.
Definition opp : float -> float := SFopp.
Definition abs : float -> float := SFabs.
Definition eqb : float -> float -> bool := SFeqb.
Definition ltb : float -> float -> bool := SFltb.
Definition leb : float -> float -> bool := SFleb.
Definition ldexp : float -> Z -> float := SFldexp prec emax.

(** Conversion of a Python [int] to a float. *)
Definition of_Z (z : Z) : float := binary_normalize prec emax z 0 false.

(** The float a decimal literal [n/d] denotes: the quotient of two exactly
    representable integers, rounded once. *)
Definition of_ratio (n d : Z) : float := div (of_Z n) (of_Z d).

Definition zero : float := S754_zero false.
Definition one : float := of_Z 1.
Definition two : float := of_Z 2.
Definition nan : float := S754_nan.

Definition is_nan (x : float) : bool :=
  match x with S754_nan => true | _ => false end.

Definition is_finite (x : float) : bool :=
  match x with S754_zero _ | S754_finite _ _ _ => true | _ => false end.

Definition valid (x : float) : bool := valid_binary prec emax x.

(** The rational number a finite float denotes (0 for the others). *)
Definition to_Q (x : float) : Q :=
  match x with
  | S754_finite s m e =>
      let v := match e with
               | Zneg p => Qmake (Zpos m) (2 ^ p)
               | _ => inject_Z (Zpos m * 2 ^ e)
               end in
      if s then Qopp v else v
  | _ => 0%Q
  end.

(** Python's builtin [max(x, y)] on two arguments: the first one unless
    the second is strictly greater. *)
Definition max (x y : float) : float := if ltb x y then y else x.

End F.

Declare Scope float_scope.
Delimit Scope float_scope with float.
Bind Scope float_scope with float.
Infix "+" := F.add : float_scope.
Infix "-" := F.sub : float_scope.
Infix "*" := F.mul : float_scope.
Infix "==" := F.eqb (at level 70, no associativity) : float_scope.
Infix "<" := F.ltb : float_scope.
Infix "<=" := F.leb : float_scope.
Notation "x > y" := (F.ltb y x) : float_scope.
Notation "x >= y" := (F.leb y x) : float_scope.
Notation "x != y" := (negb (F.eqb x y)) (at level 70, no associativity) : float_scope.
Notation "- x" := (F.opp x) : float_scope.

(** ** Exceptions and results *)

Inductive exn : Set :=
| AssertionError
| ZeroDivisionError
| StopIteration
| TypeError
| ValueError
| OverflowError.

(** The outcome of a call: a value, an exception, or no outcome within the
    allotted number of loop iterations ([Unfinished]) or of nested calls
    ([TooDeep]). *)
Inductive result (A : Type) : Type :=
| Ok (a : A)
| Raise (e : exn)
| Unfinished
| TooDeep.

Arguments Ok {A} a.
Arguments Raise {A} e.
Arguments Unfinished {A}.
Arguments TooDeep {A}.

Definition bind {A B : Type} (r : result A) (k : A -> result B) : result B :=
  match r with
  | Ok a => k a
  | Raise e => Raise e
  | Unfinished => Unfinished
  | TooDeep => TooDeep
  end.

Definition fmap {A B : Type} (f : A -> B) (r : result A) : result B :=
  bind r (fun a => Ok (f a)).

Declare Scope result_scope.
Delimit Scope result_scope with result.
Notation "x <- r ;; k" := (bind r (fun x => k))
  (at level 61, r at next level, right associativity) : result_scope.
Notation "r1 ;; r2" := (bind r1 (fun _ => r2))
  (at level 61, right associativity) : result_scope.
Open Scope result_scope.

(** [assert c]. *)
Definition assert (c : bool) : result unit :=
  if c then Ok tt else Raise AssertionError.

(** Python's float division [x / y]: division by a zero raises. *)
Definition pydiv (x y : float) : result float :=
  if (y == F.zero)%float then Raise ZeroDivisionError else Ok (F.div x y).

Infix "/" := pydiv : float_scope.

(** ** Module constants *)

(** [EMAX = 1; while True: try: math.ldexp(1., EMAX + 1) except OverflowError:
    break else: EMAX += 1].  [math.ldexp] raises [OverflowError] when the
    result is not finite. *)
Definition math_ldexp (x : float) (e : Z) : result float :=
  let r := F.ldexp x e in
  if F.is_finite r then Ok r else Raise OverflowError.

Fixpoint EMAX_loop (fuel : nat) (EMAX : Z) : result Z :=
  match fuel with
  | O => Unfinished
  | S fuel' =>
      match math_ldexp F.one (EMAX + 1) with
      | Ok _ => EMAX_loop fuel' (EMAX + 1)
      | Raise OverflowError => Ok EMAX
      | Raise e => Raise e
      | Unfinished => Unfinished
      | TooDeep => TooDeep
      end
  end.

Definition EMAX : Z :=
  Eval vm_compute in
    match EMAX_loop 2000 1 with Ok z => z | _ => 0%Z end.

(** [EPSILON = 1.; while 1. + (EPSILON/2.) != 1.: EPSILON /= 2.] *)
Fixpoint EPSILON_loop (fuel : nat) (EPSILON : float) : result float :=
  match fuel with
  | O => Unfinished
  | S fuel' =>
      h <- (EPSILON / F.two)%float ;;
      if (F.one + h != F.one)%float
      then EPSILON_loop fuel' h
      else Ok EPSILON
  end.

Definition EPSILON : float :=
  Eval vm_compute in
    match EPSILON_loop 100 F.one with Ok e => e | _ => F.nan end.

(** [EPSINV = 1./EPSILON] *)
Definition EPSINV : float :=
  Eval vm_compute in
    match (F.one / EPSILON)%float with Ok e => e | _ => F.nan end.

(** ** [relerr] *)

(** [return abs((actual - expected)/expected)] *)
Definition relerr (expected actual : float) : result float :=
  r <- ((actual - expected) / expected)%float ;;
  Ok (F.abs r).

(** The formula of the interface description: [|actual - expected| / expected],
    with the signed [expected] as divisor. *)
Definition relerr_signed_divisor (expected actual : float) : result float :=
  (F.abs (actual - expected) / expected)%float.

(** 2.0002 and 0.0001 as Python reads them. *)
Definition f2_0002 : float := F.of_ratio 20002 10000.
Definition f0_0001 : float := F.of_ratio 1 10000.

(** ** Generators

    A generator is a state machine: resuming it in state [s] either yields
    a value and suspends in a new state, or returns (which its consumer sees
    as [StopIteration]), or lets an exception escape. *)

Inductive step (A S : Type) : Type :=
| Yield (a : A) (s : S)
| Stop
| Throw (e : exn).

Arguments Yield {A S} a s.
Arguments Stop {A S}.
Arguments Throw {A S} e.

(** A finite sequence as an iterator. *)
Definition iter_list {A : Type} (l : list A) : step A (list A) :=
  match l with
  | [] => Stop
  | x :: l' => Yield x l'
  end.

(** How a run of resumptions ended. *)
Inductive ending : Set :=
| Suspended
| Returned
| Threw (e : exn).

(** The values yielded by at most [k] resumptions from state [s]. *)
Fixpoint take {A S : Type} (next : S -> step A S) (k : nat) (s : S)
  : list A * ending :=
  match k with
  | O => ([], Suspended)
  | S k' =>
      match next s with
      | Yield a s' => let (l, e) := take next k' s' in (a :: l, e)
      | Stop => ([], Returned)
      | Throw e => ([], Threw e)
      end
  end.

(** The state a generator is suspended in after [k] resumptions, when all
    of them yield. *)
Fixpoint state_after {A S : Type} (next : S -> step A S) (k : nat) (s : S)
  : option S :=
  match k with
  | O => Some s
  | S k' =>
      match next s with
      | Yield _ s' => state_after next k' s'
      | _ => None
      end
  end.

(** The value yielded by the [k]-th resumption (counting from 0). *)
Definition nth_yield {A S : Type} (next : S -> step A S) (k : nat) (s : S)
  : option A :=
  match state_after next k s with
  | Some s' => match next s' with Yield a _ => Some a | _ => None end
  | None => None
  end.

(** ** [continuants] *)

Record cstate : Set := CState { c_p0 : float; c_q0 : float; c_p : float; c_q : float }.

(** [p0 = 1.; q0 = 0.; p = 0.; q = 1.] *)
Definition cstate_init : cstate :=
  {| c_p0 := F.one; c_q0 := F.zero; c_p := F.zero; c_q := F.one |}.

(** [p0, q0, p, q = p, q, d*p + n*p0, d*q + n*q0] *)
Definition recurrence (c : cstate) (n d : float) : cstate :=
  {| c_p0 := c_p c;
     c_q0 := c_q c;
     c_p := (d * c_p c + n * c_p0 c)%float;
     c_q := (d * c_q c + n * c_q0 c)%float |}.

Definition scaled (c : cstate) : cstate :=
  {| c_p0 := (c_p0 c * EPSILON)%float;
     c_q0 := (c_q0 c * EPSILON)%float;
     c_p := (c_p c * EPSILON)%float;
     c_q := (c_q c * EPSILON)%float |}.

(** [if p >= EPSINV or q >= EPSINV: p0 *= EPSILON; ...] *)
Definition rescales (c : cstate) : bool :=
  (c_p c >= EPSINV)%float || (c_q c >= EPSINV)%float.

Definition rescale (c : cstate) : cstate :=
  if rescales c then scaled c else c.

(** The guard as the documentation words it: a component that is large in
    magnitude. *)
Definition rescales_magnitude (c : cstate) : bool :=
  (F.abs (c_p c) >= EPSINV)%float || (F.abs (c_q c) >= EPSINV)%float.

(** The state carried after the terms of [l], from the state [c]. *)
Definition carried (c : cstate) (l : list (float * float)) : cstate :=
  fold_left (fun c nd => rescale (recurrence c (fst nd) (snd nd))) l c.

(** The assertion [q != 0] holds after each term of [l]. *)
Fixpoint asserted (c : cstate) (l : list (float * float)) : bool :=
  match l with
  | [] => true
  | (n, d) :: l' =>
      let c' := rescale (recurrence c n d) in
      (c_q c' != F.zero)%float && asserted c' l'
  end.

Section Continuants.

Variable S : Type.
Variable contfrac : S -> step (float * float) S.

(** One resumption of [continuants(contfrac)]: the body of the [for]
    loop up to the [yield]. *)
Definition continuants (st : S * cstate) : step (float * float) (S * cstate) :=
  match contfrac (fst st) with
  | Stop => Stop
  | Throw e => Throw e
  | Yield (n, d) s' =>
      let c := rescale (recurrence (snd st) n d) in
      if (c_q c != F.zero)%float
      then Yield (c_p c, c_q c) (s', c)
      else Throw AssertionError
  end.

(** ** [convergents] *)

(** Where the generator is suspended: before its first statement, at the
    [yield] inside (or just before) the [for] loop holding the retained
    continuant, or at the [yield c] of the final [while True]. *)
Inductive vphase : Set :=
| VStart
| VFor (p0 q0 : float)
| VForever (c : float).

Definition convergents (st : (S * cstate) * vphase)
  : step float ((S * cstate) * vphase) :=
  let (cs, ph) := st in
  match ph with
  | VStart =>
      match continuants cs with
      | Stop => Stop
      | Throw e => Throw e
      | Yield (p0, q0) cs' =>
          match (p0 / q0)%float with
          | Ok r => Yield r (cs', VFor p0 q0)
          | Raise e => Throw e
          | _ => Throw TypeError
          end
      end
  | VFor p0 q0 =>
      match continuants cs with
      | Throw e => Throw e
      | Stop =>
          match (p0 / q0)%float with
          | Ok c => Yield c (cs, VForever c)
          | Raise e => Throw e
          | _ => Throw TypeError
          end
      | Yield (p, q) cs' =>
          if (p == F.zero)%float then
            match (p0 / q0)%float with
            | Ok c => Yield c (cs', VForever c)
            | Raise e => Throw e
            | _ => Throw TypeError
            end
          else
            match (p / q)%float with
            | Ok r => Yield r (cs', VFor p q)
            | Raise e => Throw e
            | _ => Throw TypeError
            end
      end
  | VForever c => Yield c (cs, VForever c)
  end.

Definition convergents_init (s : S) : (S * cstate) * vphase :=
  ((s, cstate_init), VStart).

Definition ratio (pq : float * float) : float := F.div (fst pq) (snd pq).

End Continuants.

(** ** Sequence reducers *)

Section Reducers.

Variable S : Type.
Variable sequence : S -> step float S.

(** [for t in sequence: assert 0 <= t; s += t;
     if (t/s) <= EPSILON: return s] -- falling off the loop returns
    [None]. *)
Fixpoint abs_summation_loop (fuel : nat) (st : S) (s : float)
  : result (option float) :=
  match fuel with
  | O => Unfinished
  | Datatypes.S fuel' =>
      match sequence st with
      | Stop => Ok None
      | Throw e => Raise e
      | Yield t st' =>
          assert (F.zero <= t)%float ;;
          let s := (s + t)%float in
          r <- (t / s)%float ;;
          if (r <= EPSILON)%float then Ok (Some s)
          else abs_summation_loop fuel' st' s
      end
  end.

(** [s = sequence.next()] then the loop. *)
Definition abs_summation (fuel : nat) (st : S) : result (option float) :=
  match sequence st with
  | Stop => Raise StopIteration
  | Throw e => Raise e
  | Yield s st' => abs_summation_loop fuel st' s
  end.

(** [for c in sequence: if c == 0: return c;
     if relerr(c0, c) <= EPSILON: return c; c0 = c] *)
Fixpoint limit_loop (fuel : nat) (st : S) (c0 : float)
  : result (option float) :=
  match fuel with
  | O => Unfinished
  | Datatypes.S fuel' =>
      match sequence st with
      | Stop => Ok None
      | Throw e => Raise e
      | Yield c st' =>
          if (c == F.zero)%float then Ok (Some c)
          else
            r <- relerr c0 c ;;
            if (r <= EPSILON)%float then Ok (Some c)
            else limit_loop fuel' st' c
      end
  end.

(** [c0 = sequence.next()] then the loop. *)
Definition limit (fuel : nat) (st : S) : result (option float) :=
  match sequence st with
  | Stop => Raise StopIteration
  | Throw e => Raise e
  | Yield c0 st' => limit_loop fuel st' c0
  end.

End Reducers.

(** The partial sum [abs_summation] holds before it adds each term of [l],
    starting from [s]. *)
Fixpoint running (s : float) (l : list float) : list float :=
  match l with
  | [] => []
  | t :: l' => s :: running (s + t)%float l'
  end.

(** An iteration of the loop of [abs_summation] that neither raises nor
    returns: [s] is the sum so far and [t] the term. *)
Definition summation_goes_on (st : float * float) : bool :=
  let (s, t) := st in
  (F.zero <= t)%float
  && ((s + t)%float != F.zero)%float
  && negb (F.div t (s + t)%float <= EPSILON)%float.

(** An iteration of the loop of [limit] that neither raises nor returns:
    [c0] is the previous element and [c] the current one. *)
Definition limit_goes_on (cc : float * float) : bool :=
  let (c0, c) := cc in
  (c != F.zero)%float
  && (c0 != F.zero)%float
  && negb (F.abs (F.div (c - c0)%float c0) <= EPSILON)%float.

(** The sequence [l] is consumed to its end by the loop of [abs_summation]
    (respectively of [limit]): no iteration raises or returns. *)
Definition summation_exhausts (l : list float) : bool :=
  match l with
  | [] => true
  | s :: l' => forallb summation_goes_on (combine (running s l') l')
  end.

Definition limit_exhausts (l : list float) : bool :=
  match l with
  | [] => true
  | c0 :: l' => forallb limit_goes_on (combine (c0 :: l') l')
  end.

(** ** The incomplete gamma functions *)

(** The outcome of a call to the mathematical library. *)
Definition call (r : exn + float) : result float :=
  match r with
  | inl e => Raise e
  | inr v => Ok v
  end.

(** A Python [None] where a float is needed: [float * None] raises. *)
Definition mul_value (m : float) (v : option float) : result float :=
  match v with
  | Some s => Ok (m * s)%float
  | None => Raise TypeError
  end.

Definition complement (g : float) : float := (F.one - g)%float.

Section Gamma.

(** [math.log], [math.exp] and [math.lgamma] belong to the platform's
    mathematical library; they are parameters of the development.  A call
    returns a float or raises. *)
Variables math_log math_exp math_lgamma : float -> exn + float.

(** [MAXLOG = math.log(2.) + math.log(2.**EMAX)], computed when the module
    is loaded; the power of two is exact. *)
Definition MAXLOG_init : result float :=
  l2 <- call (math_log F.two) ;;
  lm <- call (math_log (F.ldexp F.one EMAX)) ;;
  Ok (l2 + lm)%float.

(** The value the module holds in [MAXLOG] once it is loaded. *)
Variable MAXLOG : float.

(** [w = a*math.log(x) - x - math.lgamma(a)] *)
Definition exponent (a x : float) : result float :=
  lx <- call (math_log x) ;;
  lg <- call (math_lgamma a) ;;
  Ok (a * lx - x - lg)%float.

(** The generator [seq()] of [gamma_below]: [None] before its first
    resumption, [Some (k, t)] when suspended at [yield t]. *)
Definition seq (a x : float) (st : option (Z * float))
  : step float (option (Z * float)) :=
  match st with
  | None => Yield F.one (Some (0%Z, F.one))
  | Some (k, t) =>
      let k := (k + 1)%Z in
      match (x / (a + F.of_Z k))%float with
      | Ok r => let t := (t * r)%float in Yield t (Some (k, t))
      | Raise e => Throw e
      | _ => Throw TypeError
      end
  end.

(** The generator [contfrac()] of [gamma_above]: [None] before its first
    resumption, [Some i] when the next term to yield is the one of
    index [i] of the [while] loop. *)
Definition contfrac (a x : float) (st : option Z)
  : step (float * float) (option Z) :=
  match st with
  | None => Yield (F.one, x) (Some 0%Z)
  | Some i =>
      if (i mod 2 =? 0)%Z
      then Yield ((F.of_Z (i / 2 + 1) - a)%float, F.one) (Some (i + 1)%Z)
      else Yield (F.of_Z ((i + 1) / 2), x) (Some (i + 1)%Z)
  end.

(** The body of [gamma_below] after the delegation test: the power
    series. *)
Definition below_series (fuel : nat) (a x : float) : result float :=
  w <- exponent a x ;;
  if (w < - MAXLOG)%float then Ok F.zero
  else
    m <- call (math_exp w) ;;
    ma <- (m / a)%float ;;
    s <- abs_summation (seq a x) fuel None ;;
    mul_value ma s.

(** The body of [gamma_above] after the delegation test: the continued
    fraction. *)
Definition above_fraction (fuel : nat) (a x : float) : result float :=
  w <- exponent a x ;;
  if (w < - MAXLOG)%float then Ok F.zero
  else
    m <- call (math_exp w) ;;
    c <- limit (convergents (contfrac a x)) fuel (convergents_init None) ;;
    mul_value m c.

(** [depth] bounds the nesting of calls between the two functions and
    [fuel] the number of iterations of the loops of the reducers. *)
Fixpoint gamma_below (depth fuel : nat) (a x : float) {struct depth}
  : result float :=
  match depth with
  | O => TooDeep
  | Datatypes.S depth' =>
      assert (F.zero < a)%float ;;
      assert (F.zero <= x)%float ;;
      if (x == F.zero)%float then Ok F.zero
      else if (x > F.max F.one a)%float then
        g <- gamma_above depth' fuel a x ;;
        Ok (F.one - g)%float
      else
        w <- exponent a x ;;
        if (w < - MAXLOG)%float then Ok F.zero
        else
          m <- call (math_exp w) ;;
          ma <- (m / a)%float ;;
          s <- abs_summation (seq a x) fuel None ;;
          mul_value ma s
  end

with gamma_above (depth fuel : nat) (a x : float) {struct depth}
  : result float :=
  match depth with
  | O => TooDeep
  | Datatypes.S depth' =>
      assert (F.zero < a)%float ;;
      assert (F.zero <= x)%float ;;
      if (x <= F.max F.one a)%float then
        g <- gamma_below depth' fuel a x ;;
        Ok (F.one - g)%float
      else
        w <- exponent a x ;;
        if (w < - MAXLOG)%float then Ok F.zero
        else
          m <- call (math_exp w) ;;
          c <- limit (convergents (contfrac a x)) fuel
                     (convergents_init None) ;;
          mul_value m c
  end.

End Gamma.

(** ** Sample inputs

    The correctly rounded logarithms of 5000, 2 and 2^1023. *)
Definition log_5000 : float := S754_finite false 4794753510388087 (-49).
Definition log_2 : float := S754_finite false 6243314768165359 (-53).
Definition log_2_1023 : float := S754_finite false 6237217781087073 (-43).

(** A mathematical library that knows the four values used above. *)
Definition table_log (x : float) : exn + float :=
  if (x == F.of_Z 5000)%float then inr log_5000
  else if (x == F.two)%float then inr log_2
  else if (x == F.ldexp F.one EMAX)%float then inr log_2_1023
  else inl ValueError.

Definition table_lgamma (x : float) : exn + float :=
  if (x == F.one)%float then inr F.zero else inl ValueError.

Definition no_exp (x : float) : exn + float := inl OverflowError.

Definition table_MAXLOG : float := (log_2 + log_2_1023)%float.

(** A continued fraction whose second continuant has a zero numerator. *)
Definition terminating_terms : list (float * float) :=
  [(F.one, F.one); (F.one, F.zero); (F.one, F.one)].

Definition terminating_continuant (i : nat) : float * float :=
  match nth_yield (continuants iter_list) i (terminating_terms, cstate_init) with
  | Some pq => pq
  | None => (F.nan, F.nan)
  end.

(** Rounding to nearest, ties to even, of [M / 2^n]. *)
Definition rne (M n : Z) : Z :=
  let q := (M / 2 ^ n)%Z in
  let r := (M mod 2 ^ n)%Z in
  let h := (2 ^ (n - 1))%Z in
  if (r <? h)%Z then q
  else if (h <? r)%Z then (q + 1)%Z
  else if Z.even q then q else (q + 1)%Z.


(** ** Runs, and the functions beyond the interface description *)

(** The generator [next] resumed in [s] yields the values of [l] one after
    the other and is then suspended in [s']. *)
Inductive yields {A S : Type} (next : S -> step A S) : S -> list A -> S -> Prop :=
| yields_nil (s : S) : yields next s [] s
| yields_cons (s s' s'' : S) (a : A) (l : list A) :
    next s = Yield a s' -> yields next s' l s'' -> yields next s (a :: l) s''.

(** The sequence [c, c, c, ...]. *)
Definition iter_repeat {A : Type} (c : A) (st : unit) : step A unit :=
  Yield c tt.

(** [limit] returns [c] when it follows [c0]: [c == 0], or
    [relerr(c0, c) <= EPSILON]. *)
Definition limit_stops_at (c0 c : float) : bool :=
  (c == F.zero)%float
  || ((c0 != F.zero)%float
      && (F.abs (F.div (c - c0)%float c0) <= EPSILON)%float).

Section PartialSums.

Variable S : Type.
Variable sequence : S -> step float S.

(** [s = sequence.next(); yield s; for t in sequence: s += t; yield s]:
    the state holds the running sum once the first element is taken. *)
Definition partial_sums (st : S * option float)
  : step float (S * option float) :=
  match sequence (fst st) with
  | Stop => Stop
  | Throw e => Throw e
  | Yield t st' =>
      match snd st with
      | None => Yield t (st', Some t)
      | Some s => let s := (s + t)%float in Yield s (st', Some s)
      end
  end.

End PartialSums.

(** The sums [s + t1], [s + t1 + t2], ... of the terms of [l], added from
    the left. *)
Fixpoint scan (s : float) (l : list float) : list float :=
  match l with
  | [] => []
  | t :: l' => (s + t)%float :: scan (s + t)%float l'
  end.


(** The continuants yielded for the terms of [l], from the state [c]. *)
Fixpoint continuant_list (c : cstate) (l : list (float * float))
  : list (float * float) :=
  match l with
  | [] => []
  | (n, d) :: l' =>
      let c' := rescale (recurrence c n d) in
      (c_p c', c_q c') :: continuant_list c' l'
  end.

(** A float that is multiplied by [EPSILON] without rounding: zero, or at
    least [2^-970] in magnitude. *)
Definition scalable (x : float) : bool :=
  F.valid x
  && ((x == F.zero)%float || (F.ldexp F.one (-970) <= F.abs x)%float).

(** The continuant retained by [convergents] has a denominator that is not
    zero. *)
Definition retains_nonzero {S : Type} (st : (S * cstate) * vphase) : bool :=
  match snd st with
  | VFor _ q0 => (q0 != F.zero)%float
  | _ => true
  end.

Definition nonzero_numerator (pq : float * float) : bool :=
  (fst pq != F.zero)%float.



(** From the state [st] on, the generator yields [c] for ever. *)
Definition constant_from {A S : Type} (next : S -> step A S) (st : S) (c : A)
  : Prop :=
  forall k, nth_yield next k st = Some c.

(** The correctly rounded [lgamma(1000.)], and a mathematical library that
    also knows [log(1.) = 0.] and [lgamma(1000.)]. *)
Definition lgamma_1000 : float := S754_finite false 6492858519898806 (-40).

Definition sample_log (x : float) : exn + float :=
  if (x == F.one)%float then inr F.zero else table_log x.

Definition sample_lgamma (x : float) : exn + float :=
  if (x == F.of_Z 1000)%float then inr lgamma_1000 else table_lgamma x.

(** A continued fraction of two terms, and one whose second continuant has
    a zero denominator. *)
Definition two_terms : list (float * float) :=
  [(F.one, F.one); (F.one, F.one)].

Definition failing_terms : list (float * float) :=
  [(F.one, F.one); (F.one, F.of_Z (-1))].

(** A state whose numerator reaches [EPSINV]. *)
Definition large_state : cstate := recurrence cstate_init EPSINV F.one.




(** * Properties *)

Unset Implicit Arguments.

(** ** Facts about binary64 operations *)

Lemma abs_binary_round_aux (s : bool) (m e : Z) (l : location) :
  SFabs (binary_round_aux F.prec F.emax s m e l)
  = binary_round_aux F.prec F.emax false m e l.
Proof.
  unfold binary_round_aux.
  destruct (shr_fexp F.prec F.emax m e l) as [mrs' e'].
  destruct (shr_fexp F.prec F.emax _ e' loc_Exact) as [mrs'' e''].
  destruct (shr_m mrs''); [reflexivity | | reflexivity].
  destruct (Z.leb e'' (F.emax - F.prec)); reflexivity.
Qed.

Lemma abs_div (x y : float) :
  F.abs (F.div x y) = F.div (F.abs x) (F.abs y).
Proof.
  unfold F.abs, F.div.
  destruct x as [sx | sx | | sx mx ex], y as [sy | sy | | sy my ey];
    try reflexivity.
  change (SFabs (S754_finite sx mx ex)) with (S754_finite false mx ex).
  change (SFabs (S754_finite sy my ey)) with (S754_finite false my ey).
  unfold SFdiv.
  destruct (SFdiv_core_binary F.prec F.emax (Z.pos mx) ex (Z.pos my) ey)
    as [[mz ez] lz].
  apply abs_binary_round_aux.
Qed.

Lemma eqb_abs_zero (x : float) :
  (F.abs x == F.zero)%float = (x == F.zero)%float.
Proof. destruct x as [s | s | | s m e]; try destruct s; reflexivity. Qed.

(** ** Comparisons *)

Lemma compare_cont_swap (p q : positive) :
  Pos.compare_cont Eq p q = CompOpp (Pos.compare_cont Eq q p).
Proof. now rewrite Pos.compare_cont_antisym. Qed.

Lemma compare_swap (x y : float) :
  SFcompare x y = option_map CompOpp (SFcompare y x).
Proof.
  destruct x as [sx | sx | | sx mx ex], y as [sy | sy | | sy my ey];
    try destruct sx; try destruct sy; try reflexivity; simpl;
    rewrite (Z.compare_antisym ey ex);
    destruct (ey ?= ex)%Z; simpl; try reflexivity;
    rewrite (compare_cont_swap mx my);
    try rewrite CompOpp_involutive; reflexivity.
Qed.

(** On numbers, [x > m] is the negation of [x <= m]. *)
Lemma gt_is_not_le (x m : float) :
  F.is_nan x = false -> F.is_nan m = false ->
  (x > m)%float = negb (x <= m)%float.
Proof.
  intros Hx Hm. unfold F.ltb, F.leb, SFltb, SFleb.
  rewrite (compare_swap m x).
  destruct x as [sx | sx | | sx mx ex]; try discriminate Hx;
    destruct m as [sm | sm | | sm mm em]; try discriminate Hm;
    destruct (SFcompare _ _) as [[ | | ] | ] eqn:E; try reflexivity;
    simpl in E; repeat match type of E with
                  | context [if ?b then _ else _] => destruct b
                  | context [match ?b with true => _ | false => _ end] => destruct b
                  end; discriminate E.
Qed.

(** [x > m] excludes [x <= m], whatever the floats. *)
Lemma gt_excludes_le (x m : float) :
  (x > m)%float = true -> (x <= m)%float = false.
Proof.
  intros H.
  assert (F.is_nan x = false /\ F.is_nan m = false) as [Hx Hm].
  { destruct x, m; simpl; split; try reflexivity; discriminate H. }
  rewrite (gt_is_not_le x m Hx Hm) in H.
  now destruct (x <= m)%float.
Qed.

Lemma lt_not_nan (x y : float) :
  (x < y)%float = true -> F.is_nan x = false /\ F.is_nan y = false.
Proof. destruct x, y; simpl; split; try reflexivity; discriminate. Qed.

Lemma le_not_nan (x y : float) :
  (x <= y)%float = true -> F.is_nan x = false /\ F.is_nan y = false.
Proof. destruct x, y; simpl; split; try reflexivity; discriminate. Qed.

Lemma max_not_nan (a : float) : F.is_nan (F.max F.one a) = false.
Proof.
  unfold F.max. destruct (F.ltb F.one a) eqn:E; [|reflexivity].
  now apply lt_not_nan in E.
Qed.

(** [max(1., a)] is at least 1, so a zero never exceeds it. *)
Lemma zero_le_max (a x : float) :
  (x == F.zero)%float = true -> (x <= F.max F.one a)%float = true.
Proof.
  intros Hx. unfold F.max.
  destruct x as [sx | sx | | sx mx ex]; try destruct sx; try discriminate Hx;
    (destruct (F.ltb F.one a) eqn:E; [|reflexivity]);
    destruct a as [sa | sa | | sa ma ea]; try destruct sa;
      try discriminate E; reflexivity.
Qed.

(** ** Exact products and sums *)

Lemma shr_52 (m : positive) :
  iter_pos shr_1 52
    {| shr_m := Zpos (Pos.iter xO m 52); shr_r := false; shr_s := false |}
  = {| shr_m := Zpos m; shr_r := false; shr_s := false |}.
Proof. reflexivity. Qed.

Lemma mul_2_52 (m : positive) :
  Pos.mul m 4503599627370496 = Pos.iter xO m 52.
Proof. rewrite Pos.mul_comm. reflexivity. Qed.

Lemma digits_shift_52 (m : positive) :
  Zpos (digits2_pos (Pos.iter xO m 52)) = (Zpos (digits2_pos m) + 52)%Z.
Proof.
  change (digits2_pos (Pos.iter xO m 52))
    with (Pos.iter Pos.succ (digits2_pos m) 52).
  cbv [Pos.iter]. rewrite !Pos2Z.inj_succ. lia.
Qed.

(** Multiplying a float by [1.] leaves it as it is. *)
Lemma mul_one_r_finite (s : bool) (m : positive) (e : Z) :
  bounded F.prec F.emax m e = true ->
  F.mul (S754_finite s m e) F.one = S754_finite s m e.
Proof.
  intros Hb. apply andb_true_iff in Hb as [Hc He].
  unfold canonical_mantissa in Hc. apply Z.eqb_eq in Hc.
  change F.one with (S754_finite false 4503599627370496 (-52)).
  unfold F.mul, SFmul. rewrite mul_2_52, xorb_false_r.
  unfold binary_round_aux, shr_fexp.
  unfold Zdigits2 at 1. rewrite digits_shift_52.
  replace (Z.pos (digits2_pos m) + 52 + (e + -52))%Z
    with (Z.pos (digits2_pos m) + e)%Z by lia.
  rewrite Hc.
  replace (e - (e + -52))%Z with 52%Z by lia.
  unfold shr at 1.
  change (shr_record_of_loc (Z.pos (Pos.iter xO m 52)) loc_Exact)
    with {| shr_m := Zpos (Pos.iter xO m 52); shr_r := false; shr_s := false |}.
  rewrite shr_52. cbn [shr_m loc_of_shr_record round_nearest_even].
  replace (e + -52 + 52)%Z with e by lia.
  unfold Zdigits2. rewrite Hc, Z.sub_diag.
  cbn [shr shr_record_of_loc shr_m]. now rewrite He.
Qed.

Lemma mul_one_r (x : float) :
  F.valid x = true -> F.is_finite x = true -> F.mul x F.one = x.
Proof.
  destruct x as [s | s | | s m e]; try discriminate; intros Hv _.
  - unfold F.mul. simpl. now rewrite xorb_false_r.
  - now apply mul_one_r_finite.
Qed.

Lemma mul_zero_r (x : float) :
  F.is_finite x = true -> exists s, F.mul x F.zero = S754_zero s.
Proof.
  destruct x as [s | s | | s m e]; try discriminate; intros _; eexists;
    reflexivity.
Qed.

Lemma eqb_refl_finite (x : float) :
  F.is_finite x = true -> (x == x)%float = true.
Proof.
  destruct x as [s | s | | s m e]; try discriminate; intros _; [reflexivity|].
  unfold F.eqb, SFeqb, SFcompare.
  rewrite Z.compare_refl, Pos.compare_cont_refl. now destruct s.
Qed.

(** The first continuant: [d*0. + n*1.] and [d*1. + n*0.]. *)
Lemma first_numerator (n d : float) :
  F.valid n = true -> F.is_finite n = true -> F.is_finite d = true ->
  ((d * F.zero + n * F.one)%float == n)%float = true.
Proof.
  intros Hv Hn Hd. rewrite (mul_one_r n Hv Hn).
  destruct (mul_zero_r d Hd) as [s ->].
  destruct n as [sn | sn | | sn mn en]; try discriminate Hn.
  - destruct s, sn; reflexivity.
  - change (S754_zero s + S754_finite sn mn en)%float
      with (S754_finite sn mn en).
    now apply eqb_refl_finite.
Qed.

Lemma first_denominator (n d : float) :
  F.valid d = true -> F.is_finite d = true -> F.is_finite n = true ->
  (d == F.zero)%float = false ->
  (d * F.one + n * F.zero)%float = d.
Proof.
  intros Hv Hd Hn Hz. rewrite (mul_one_r d Hv Hd).
  destruct (mul_zero_r n Hn) as [s ->].
  destruct d as [sd | sd | | sd md ed]; try discriminate Hd.
  - destruct sd; discriminate Hz.
  - reflexivity.
Qed.

(** ** Rounding

    What [binary_round] does to an integer mantissa, in terms of integer
    division. *)

Section Rounding.

Local Open Scope Z_scope.

Lemma iter_pos_nat {A : Type} (f : A -> A) (p : positive) (x : A) :
  iter_pos f p x = Nat.iter (Pos.to_nat p) f x.
Proof.
  revert x. induction p as [p IH | p IH | ]; intros x; cbn [iter_pos].
  - rewrite !IH. rewrite Pos2Nat.inj_xI.
    replace (S (2 * Pos.to_nat p))%nat with (Pos.to_nat p + (Pos.to_nat p + 1))%nat by lia.
    rewrite !Nat.iter_add. simpl. reflexivity.
  - rewrite !IH. rewrite Pos2Nat.inj_xO.
    replace (2 * Pos.to_nat p)%nat with (Pos.to_nat p + Pos.to_nat p)%nat by lia.
    rewrite Nat.iter_add. reflexivity.
  - reflexivity.
Qed.

Lemma shr_1_nonneg (m : Z) (r s : bool) :
  0 <= m ->
  shr_1 {| shr_m := m; shr_r := r; shr_s := s |}
  = {| shr_m := m / 2; shr_r := Z.odd m; shr_s := r || s |}.
Proof.
  intros Hm. destruct m as [|p|p]; [reflexivity| |lia].
  destruct p as [p|p|]; simpl shr_1.
  - f_equal. rewrite Pos2Z.inj_xI. apply Z.div_unique with (r := 1); lia.
  - f_equal. rewrite Pos2Z.inj_xO. apply Z.div_unique with (r := 0); lia.
  - reflexivity.
Qed.

(** After [n >= 1] shifts: quotient, round bit and sticky bit. *)
Lemma sticky_step (M P : Z) :
  0 <= M -> 0 < P ->
  Z.odd (M / P) || negb (M mod P =? 0) = negb (M mod (2 * P) =? 0).
Proof.
  intros HM HP.
  assert (HMd : M = P * (M / P) + M mod P) by (apply Z.div_mod; lia).
  assert (Hr : 0 <= M mod P < P) by (apply Z.mod_pos_bound; lia).
  assert (Hq : M / P = 2 * (M / P / 2) + (M / P) mod 2) by (apply Z.div_mod; lia).
  assert (Hb : 0 <= (M / P) mod 2 < 2) by (apply Z.mod_pos_bound; lia).
  assert (Hm2 : M mod (2 * P) = P * ((M / P) mod 2) + M mod P).
  { symmetry. apply Z.mod_unique with (q := M / P / 2); nia. }
  rewrite Hm2, Zodd_mod.
  destruct (Z.eqb_spec ((M / P) mod 2) 1) as [E|E];
    destruct (Z.eqb_spec (M mod P) 0) as [E'|E']; simpl; symmetry.
  - apply negb_true_iff, Z.eqb_neq. nia.
  - apply negb_true_iff, Z.eqb_neq. nia.
  - apply negb_false_iff, Z.eqb_eq. nia.
  - apply negb_true_iff, Z.eqb_neq. nia.
Qed.

Lemma shr_iter (n : nat) (M : Z) :
  0 <= M ->
  Nat.iter (S n) shr_1 {| shr_m := M; shr_r := false; shr_s := false |}
  = {| shr_m := M / 2 ^ Z.of_nat (S n);
       shr_r := Z.testbit M (Z.of_nat n);
       shr_s := negb (M mod 2 ^ Z.of_nat n =? 0) |}.
Proof.
  intros HM. induction n as [|n IH].
  - change (Nat.iter 1 shr_1 ?x) with (shr_1 x). rewrite shr_1_nonneg by lia.
    change (Z.of_nat 1) with 1. change (Z.of_nat 0) with 0.
    rewrite Z.pow_1_r, Z.pow_0_r, Z.mod_1_r, Z.bit0_odd. reflexivity.
  - change (Nat.iter (S (S n)) shr_1 ?x) with (shr_1 (Nat.iter (S n) shr_1 x)).
    rewrite IH. rewrite shr_1_nonneg by (apply Z.div_pos; lia).
    assert (H1 : M / 2 ^ Z.of_nat (S n) / 2 = M / 2 ^ Z.of_nat (S (S n))).
    { rewrite Z.div_div by lia. f_equal.
      rewrite (Nat2Z.inj_succ (S n)), Z.pow_succ_r by lia. lia. }
    assert (H2 : Z.odd (M / 2 ^ Z.of_nat (S n)) = Z.testbit M (Z.of_nat (S n))).
    { rewrite Z.testbit_odd, Z.shiftr_div_pow2 by lia. reflexivity. }
    assert (H3 : Z.testbit M (Z.of_nat n) || negb (M mod 2 ^ Z.of_nat n =? 0)
                 = negb (M mod 2 ^ Z.of_nat (S n) =? 0)).
    { rewrite (Nat2Z.inj_succ n), Z.pow_succ_r by lia.
      rewrite Z.testbit_odd, Z.shiftr_div_pow2 by lia.
      apply sticky_step; [lia|]. apply Z.pow_pos_nonneg; lia. }
    now rewrite H1, H2, H3.
Qed.

Lemma fexp_eq (x : Z) : fexp F.prec F.emax x = Z.max (x - 53) (-1074).
Proof. reflexivity. Qed.

Lemma digits2_size (p : positive) : digits2_pos p = Pos.size p.
Proof. induction p as [p IH|p IH|]; simpl; now rewrite ?IH. Qed.

Lemma digits_bounds (p : positive) :
  2 ^ (Zpos (digits2_pos p) - 1) <= Zpos p < 2 ^ Zpos (digits2_pos p).
Proof.
  rewrite digits2_size. split.
  - pose proof (Pos.size_le p) as H.
    assert (H' : (Zpos (2 ^ Pos.size p) <= Zpos (p~0))) by exact H.
    rewrite Pos2Z.inj_pow in H'.
    assert (E : 2 ^ Z.pos (Pos.size p) = 2 * 2 ^ (Z.pos (Pos.size p) - 1)).
    { rewrite <- Z.pow_succ_r by lia. f_equal. lia. }
    rewrite E in H'. pose proof (Pos2Z.inj_xO p). lia.
  - pose proof (Pos.size_gt p) as H.
    assert (H' : (Zpos p < Zpos (2 ^ Pos.size p))) by exact H.
    now rewrite Pos2Z.inj_pow in H'.
Qed.

Lemma digits_unique (p : positive) (k : Z) :
  2 ^ (k - 1) <= Zpos p < 2 ^ k -> Zpos (digits2_pos p) = k.
Proof.
  intros [Hl Hu]. pose proof (digits_bounds p) as [Hl' Hu'].
  assert (0 < k).
  { destruct (Z.ltb_spec 0 k); [assumption|].
    assert (2 ^ k <= 2 ^ 0) by (destruct (Z.eqb_spec k 0); [subst; lia|rewrite Z.pow_neg_r; simpl; lia]).
    simpl in *. lia. }
  destruct (Z.lt_trichotomy (Zpos (digits2_pos p)) k) as [Hlt|[Heq|Hgt]]; [|assumption|].
  - assert (2 ^ Zpos (digits2_pos p) <= 2 ^ (k - 1)) by (apply Z.pow_le_mono_r; lia). lia.
  - assert (2 ^ k <= 2 ^ (Zpos (digits2_pos p) - 1)) by (apply Z.pow_le_mono_r; lia). lia.
Qed.

Lemma round_shr (p : positive) (M : Z) :
  0 <= M ->
  let mrs := iter_pos shr_1 p (shr_record_of_loc M loc_Exact) in
  round_nearest_even (shr_m mrs) (loc_of_shr_record mrs) = rne M (Zpos p).
Proof.
  intros HM mrs. subst mrs.
  rewrite iter_pos_nat.
  destruct (Pos2Nat.is_succ p) as [n Hn]. rewrite Hn.
  change (shr_record_of_loc M loc_Exact)
    with {| shr_m := M; shr_r := false; shr_s := false |}.
  rewrite shr_iter by assumption.
  assert (Hp : Zpos p = Z.of_nat (S n)) by lia.
  unfold rne. rewrite Hp.
  replace (Z.of_nat (S n) - 1) with (Z.of_nat n) by lia.
  rewrite (Nat2Z.inj_succ n), Z.pow_succ_r by lia.
  set (h := 2 ^ Z.of_nat n). assert (0 < h) by (apply Z.pow_pos_nonneg; lia).
  assert (HMd : M = h * (M / h) + M mod h) by (apply Z.div_mod; lia).
  assert (Hr : 0 <= M mod h < h) by (apply Z.mod_pos_bound; lia).
  assert (Hq : M / h = 2 * (M / h / 2) + (M / h) mod 2) by (apply Z.div_mod; lia).
  assert (Hb : 0 <= (M / h) mod 2 < 2) by (apply Z.mod_pos_bound; lia).
  assert (Hm2 : M mod (2 * h) = h * ((M / h) mod 2) + M mod h).
  { symmetry. apply Z.mod_unique with (q := M / h / 2); nia. }
  assert (Hbit : Z.testbit M (Z.of_nat n) = ((M / h) mod 2 =? 1)).
  { rewrite Z.testbit_odd, Z.shiftr_div_pow2 by lia. apply Zodd_mod. }
  cbn [shr_m loc_of_shr_record shr_r shr_s]. rewrite Hbit, Hm2.
  destruct (Z.eqb_spec ((M / h) mod 2) 1) as [E|E];
    destruct (Z.eqb_spec (M mod h) 0) as [E'|E']; cbn [negb round_nearest_even].
  - rewrite E, E'.
    replace (h * 1 + 0 <? h) with false by (symmetry; apply Z.ltb_ge; lia).
    replace (h <? h * 1 + 0) with false by (symmetry; apply Z.ltb_ge; lia).
    reflexivity.
  - rewrite E.
    replace (h * 1 + M mod h <? h) with false by (symmetry; apply Z.ltb_ge; lia).
    replace (h <? h * 1 + M mod h) with true by (symmetry; apply Z.ltb_lt; lia).
    reflexivity.
  - replace (h * (M / h mod 2) + M mod h <? h) with true by (symmetry; apply Z.ltb_lt; nia).
    reflexivity.
  - replace (h * (M / h mod 2) + M mod h <? h) with true by (symmetry; apply Z.ltb_lt; nia).
    reflexivity.
Qed.

Lemma Zdigits2_pos (M : positive) : Zdigits2 (Zpos M) = Zpos (digits2_pos M).
Proof. reflexivity. Qed.

Lemma shr_zero (mrs : shr_record) (e : Z) : shr mrs e 0 = (mrs, e).
Proof. reflexivity. Qed.

(** Rounding with a shift of [n > 0] binary digits. *)
Lemma round_aux_shift (s : bool) (M : positive) (e n : Z) :
  0 < n ->
  fexp F.prec F.emax (Zpos (digits2_pos M) + e) - e = n ->
  2 ^ 52 <= rne (Zpos M) n <= 2 ^ 53 ->
  -1074 <= e + n -> e + n + 1 <= 971 ->
  binary_round_aux F.prec F.emax s (Zpos M) e loc_Exact
  = if rne (Zpos M) n <? 2 ^ 53
    then S754_finite s (Z.to_pos (rne (Zpos M) n)) (e + n)
    else S754_finite s 4503599627370496 (e + n + 1).
Proof.
  intros Hn Ht Hm Hlo Hhi.
  unfold binary_round_aux, shr_fexp. rewrite Zdigits2_pos, Ht.
  destruct n as [|p|p]; try lia. unfold shr at 1.
  rewrite (round_shr p (Zpos M)) by lia.
  set (m1 := rne (Zpos M) (Zpos p)) in *.
  destruct (Z.ltb_spec m1 (2 ^ 53)) as [Hlt|Hge].
  - assert (Hpos : m1 = Zpos (Z.to_pos m1)) by (rewrite Z2Pos.id; lia).
    rewrite Hpos at 1 2. rewrite Zdigits2_pos.
    rewrite (digits_unique (Z.to_pos m1) 53) by (rewrite <- Hpos; change (53 - 1) with 52; lia).
    rewrite fexp_eq.
    replace (Z.max (53 + (e + Zpos p) - 53) (-1074) - (e + Zpos p)) with 0 by lia.
    rewrite shr_zero. cbn [shr_m shr_record_of_loc].
    replace (e + Zpos p <=? F.emax - F.prec) with true; [reflexivity|].
    symmetry. apply Z.leb_le. unfold F.emax, F.prec. lia.
  - assert (E : m1 = 2 ^ 53) by lia. rewrite E.
    change (Zdigits2 (2 ^ 53)) with 54. rewrite fexp_eq.
    replace (Z.max (54 + (e + Zpos p) - 53) (-1074) - (e + Zpos p)) with 1 by lia.
    cbn [shr iter_pos]. change (shr_1 (shr_record_of_loc (2 ^ 53) loc_Exact))
      with {| shr_m := 2 ^ 52; shr_r := false; shr_s := false |}.
    cbn [shr_m]. change (2 ^ 52) with (Zpos 4503599627370496).
    replace (e + Zpos p + 1 <=? F.emax - F.prec) with true; [reflexivity|].
    symmetry. apply Z.leb_le. unfold F.emax, F.prec. lia.
Qed.

Lemma iter_xO (m d : positive) :
  Zpos (Pos.iter xO m d) = Zpos m * 2 ^ Zpos d.
Proof.
  induction d as [|d IH] using Pos.peano_ind.
  - simpl. lia.
  - rewrite Pos.iter_succ, Pos2Z.inj_xO, IH, Pos2Z.inj_succ, Z.pow_succ_r by lia. lia.
Qed.

Lemma shl_align_le (m : positive) (e e' : Z) :
  e' <= e ->
  Zpos (fst (shl_align m e e')) = Zpos m * 2 ^ (e - e')
  /\ snd (shl_align m e e') = e'.
Proof.
  intros H. unfold shl_align.
  destruct (e' - e) as [|d|d] eqn:E; try lia.
  - replace (e - e') with 0 by lia. cbn [fst snd]. rewrite Z.pow_0_r. split; lia.
  - cbn [fst snd]. rewrite iter_xO. replace (e - e') with (Zpos d) by lia. split; reflexivity.
Qed.

Lemma shl_align_ge (m : positive) (e e' : Z) :
  e <= e' -> shl_align m e e' = (m, e).
Proof.
  intros H. unfold shl_align. destruct (e' - e) as [|d|d] eqn:E; try lia; reflexivity.
Qed.


Lemma rne_bounds (M n : Z) :
  0 <= M -> 0 < n ->
  M / 2 ^ n <= rne M n <= M / 2 ^ n + 1
  /\ - 2 ^ (n - 1) <= rne M n * 2 ^ n - M <= 2 ^ (n - 1).
Proof.
  intros HM Hn. unfold rne.
  assert (Hp : 2 ^ n = 2 * 2 ^ (n - 1)).
  { rewrite <- Z.pow_succ_r by lia. f_equal. lia. }
  set (h := 2 ^ (n - 1)) in *. assert (0 < h) by (apply Z.pow_pos_nonneg; lia).
  assert (HMd : M = 2 ^ n * (M / 2 ^ n) + M mod 2 ^ n) by (apply Z.div_mod; lia).
  assert (Hr : 0 <= M mod 2 ^ n < 2 ^ n) by (apply Z.mod_pos_bound; lia).
  set (q := M / 2 ^ n) in *. set (r := M mod 2 ^ n) in *.
  destruct (Z.ltb_spec r h); [nia|].
  destruct (Z.ltb_spec h r); [nia|].
  destruct (Z.even q); nia.
Qed.




Lemma round_shift (s : bool) (M : positive) (e n : Z) :
  0 < n ->
  fexp F.prec F.emax (Zpos (digits2_pos M) + e) - e = n ->
  2 ^ 52 <= rne (Zpos M) n <= 2 ^ 53 ->
  -1074 <= e + n -> e + n + 1 <= 971 ->
  binary_round F.prec F.emax s M e
  = if rne (Zpos M) n <? 2 ^ 53
    then S754_finite s (Z.to_pos (rne (Zpos M) n)) (e + n)
    else S754_finite s 4503599627370496 (e + n + 1).
Proof.
  intros Hn Ht Hm Hlo Hhi. unfold binary_round.
  rewrite shl_align_ge by lia. now apply round_aux_shift.
Qed.





Lemma add_finite (m1 m2 : positive) (e1 e2 : Z) :
  F.add (S754_finite false m1 e1) (S754_finite false m2 e2)
  = binary_round F.prec F.emax false
      (fst (shl_align m1 e1 (Z.min e1 e2)) + fst (shl_align m2 e2 (Z.min e1 e2)))
      (Z.min e1 e2).
Proof. reflexivity. Qed.



Lemma add_comm (x y : float) : F.add x y = F.add y x.
Proof.
  unfold F.add.
  destruct x as [sx | sx | | sx mx ex], y as [sy | sy | | sy my ey];
    try (destruct sx, sy; reflexivity); try (destruct sx; reflexivity);
    try (destruct sy; reflexivity); try reflexivity.
  cbv beta iota zeta delta [SFadd].
  rewrite (Z.min_comm ey ex).
  rewrite (Z.add_comm (cond_Zopp sy _) (cond_Zopp sx _)).
  reflexivity.
Qed.



Lemma mul_comm (x y : float) : F.mul x y = F.mul y x.
Proof.
  unfold F.mul.
  destruct x as [sx | sx | | sx mx ex], y as [sy | sy | | sy my ey];
    try (destruct sx, sy; reflexivity); try (destruct sx; reflexivity);
    try (destruct sy; reflexivity); try reflexivity.
  cbv beta iota zeta delta [SFmul].
  now rewrite (xorb_comm sy sx), (Pos.mul_comm my mx), (Z.add_comm ey ex).
Qed.

(** A float between two positive floats of the same exponent. *)
Lemma between_finite (x : float) (mlo mhi : positive) (e0 : Z) :
  (S754_finite false mlo e0 <= x)%float = true ->
  (x <= S754_finite false mhi e0)%float = true ->
  exists m, x = S754_finite false m e0 /\ Zpos mlo <= Zpos m <= Zpos mhi.
Proof.
  intros Hlo Hhi. unfold F.leb, SFleb, SFcompare in Hlo, Hhi.
  destruct x as [s | s | | s m e]; try discriminate.
  - destruct s; discriminate.
  - destruct s; [discriminate|].
    rewrite Pos.compare_cont_spec in Hlo, Hhi.
    destruct (Z.compare_spec e0 e) as [E|E|E]; [| |discriminate Hlo].
    + subst e. rewrite Z.compare_refl in Hhi.
      exists m. split; [reflexivity|].
      destruct (Pos.compare_spec mlo m) as [E1|E1|E1]; [| |discriminate Hlo];
        destruct (Pos.compare_spec m mhi) as [E2|E2|E2];
        try discriminate Hhi; subst;
        try apply Pos2Z.pos_lt_pos in E1; try apply Pos2Z.pos_lt_pos in E2;
        split; try apply Z.le_refl; try apply Z.lt_le_incl; assumption.
    + destruct (Z.compare_spec e e0) as [E'|E'|E']; [| |discriminate Hhi];
        exfalso; clear - E E'; [subst; apply (Z.lt_irrefl _ E)|].
      apply (Z.lt_irrefl e0). now apply Z.lt_trans with e.
Qed.

Lemma rne_le (M n hi : Z) :
  0 <= M -> 0 < n -> M <= hi * 2 ^ n -> rne M n <= hi.
Proof.
  intros HM Hn H. unfold rne.
  assert (Hp : 2 ^ n = 2 * 2 ^ (n - 1)).
  { rewrite <- Z.pow_succ_r by lia. f_equal. lia. }
  set (h := 2 ^ (n - 1)) in *. assert (0 < h) by (apply Z.pow_pos_nonneg; lia).
  assert (HMd : M = 2 ^ n * (M / 2 ^ n) + M mod 2 ^ n) by (apply Z.div_mod; lia).
  assert (Hr : 0 <= M mod 2 ^ n < 2 ^ n) by (apply Z.mod_pos_bound; lia).
  set (q := M / 2 ^ n) in *. set (r := M mod 2 ^ n) in *.
  destruct (Z.ltb_spec r h); [nia|].
  destruct (Z.ltb_spec h r); [nia|].
  destruct (Z.even q); nia.
Qed.

(** An integer of [53 + n] binary digits rounds to a float whose exponent
    is [n] above. *)
Lemma round_range (s : bool) (M : positive) (e n lo hi : Z) :
  0 < n -> 2 ^ 52 <= lo -> hi < 2 ^ 53 ->
  lo * 2 ^ n <= Zpos M <= hi * 2 ^ n ->
  -1074 <= e + n -> e + n + 1 <= 971 ->
  exists m1, binary_round F.prec F.emax s M e = S754_finite s m1 (e + n)
             /\ lo <= Zpos m1 <= hi.
Proof.
  intros Hn Hlo Hhi [HMl HMu] He1 He2.
  assert (Hp : 0 < 2 ^ n) by (apply Z.pow_pos_nonneg; lia).
  assert (E1 : 2 ^ (53 + n - 1) = 2 ^ 52 * 2 ^ n).
  { rewrite <- Z.pow_add_r by lia. f_equal. lia. }
  assert (E2 : 2 ^ (53 + n) = 2 ^ 53 * 2 ^ n).
  { rewrite <- Z.pow_add_r by lia. reflexivity. }
  assert (Hd : Zpos (digits2_pos M) = 53 + n).
  { apply digits_unique. rewrite E1, E2. split; nia. }
  destruct (rne_bounds (Zpos M) n) as [[Hq _] _]; [lia|lia|].
  assert (Hq' : lo <= Zpos M / 2 ^ n) by (apply Z.div_le_lower_bound; lia).
  pose proof (rne_le (Zpos M) n hi ltac:(lia) Hn HMu) as Hle.
  rewrite (round_shift s M e n); try lia.
  - destruct (Z.ltb_spec (rne (Zpos M) n) (2 ^ 53)); [|lia].
    exists (Z.to_pos (rne (Zpos M) n)). split; [reflexivity|].
    rewrite Z2Pos.id; lia.
  - rewrite Hd, fexp_eq. lia.
Qed.

Lemma sub_zero_r (x g : float) :
  (g == F.zero)%float = true -> F.is_finite x = true ->
  (x == F.zero)%float = false -> F.sub x g = x.
Proof.
  intros Hg Hx Hz.
  destruct g as [sg | sg | | sg mg eg]; try destruct sg; try discriminate Hg;
    destruct x as [sx | sx | | sx mx ex]; try destruct sx;
      try discriminate Hx; try discriminate Hz; reflexivity.
Qed.

Lemma sub_finite (m1 m2 : positive) (e1 e2 : Z) :
  F.sub (S754_finite false m1 e1) (S754_finite false m2 e2)
  = binary_normalize F.prec F.emax
      (Zpos (fst (shl_align m1 e1 (Z.min e1 e2)))
       - Zpos (fst (shl_align m2 e2 (Z.min e1 e2))))
      (Z.min e1 e2) false.
Proof. reflexivity. Qed.

(** With logarithms in the right ranges, the exponent of the prefactor at
    [a = 1], [x = 5000] is below [-MAXLOG]. *)
Lemma exponent_5000 (l5000 g1 l2 lM : float) :
  (F.of_Z 8 <= l5000)%float = true -> (l5000 <= F.of_Z 9)%float = true ->
  (g1 == F.zero)%float = true ->
  (F.of_ratio 1 2 <= l2)%float = true -> (l2 <= F.of_ratio 3 4)%float = true ->
  (F.of_Z 709 <= lM)%float = true -> (lM <= F.of_Z 710)%float = true ->
  ((F.one * l5000 - F.of_Z 5000 - g1) < - (l2 + lM))%float = true.
Proof.
  intros H8 H9 Hg H05 H075 H709 H710.
  change (F.of_Z 8) with (S754_finite false 4503599627370496 (-49)) in H8.
  change (F.of_Z 9) with (S754_finite false 5066549580791808 (-49)) in H9.
  change (F.of_ratio 1 2) with (S754_finite false 4503599627370496 (-53)) in H05.
  change (F.of_ratio 3 4) with (S754_finite false 6755399441055744 (-53)) in H075.
  change (F.of_Z 709) with (S754_finite false 6236429952745472 (-43)) in H709.
  change (F.of_Z 710) with (S754_finite false 6245226045767680 (-43)) in H710.
  destruct (between_finite _ _ _ _ H8 H9) as (m & -> & Hm).
  destruct (between_finite _ _ _ _ H05 H075) as (m2 & -> & Hm2).
  destruct (between_finite _ _ _ _ H709 H710) as (mM & -> & HmM).
  clear H8 H9 H05 H075 H709 H710.
  (* 1. * log(5000) *)
  assert (Hb : bounded F.prec F.emax m (-49) = true).
  { unfold bounded, canonical_mantissa. apply andb_true_iff. split; [|reflexivity].
    apply Z.eqb_eq. rewrite (digits_unique m 53); [reflexivity|].
    change (2 ^ (53 - 1)) with 4503599627370496.
    change (2 ^ 53) with 9007199254740992. lia. }
  rewrite mul_comm, (mul_one_r_finite false m (-49) Hb).
  (* ... - 5000. *)
  change (F.of_Z 5000) with (S754_finite false 5497558138880000 (-40)).
  rewrite sub_finite.
  change (Z.min (-49) (-40)) with (-49).
  change (fst (shl_align m (-49) (-49))) with m.
  change (Zpos (fst (shl_align 5497558138880000 (-40) (-49))))
    with 2814749767106560000.
  destruct (Zpos m - 2814749767106560000) as [|M|M] eqn:EM; try lia.
  change (binary_normalize F.prec F.emax (Zneg M) (-49) false)
    with (binary_round F.prec F.emax true M (-49)).
  assert (P52 : 2 ^ 52 = 4503599627370496) by reflexivity.
  assert (P53 : 2 ^ 53 = 9007199254740992) by reflexivity.
  assert (R1 : 5487662534230016 * 2 ^ 9 <= Zpos M <= 5488762045857792 * 2 ^ 9).
  { change (2 ^ 9) with 512. lia. }
  destruct (round_range true M (-49) 9 5487662534230016 5488762045857792)
    as (m1 & -> & Hm1); [lia|lia|lia|exact R1|lia|lia|].
  change (-49 + 9) with (-40).
  rewrite (sub_zero_r _ g1 Hg) by reflexivity.
  (* MAXLOG *)
  rewrite add_finite.
  change (Z.min (-53) (-43)) with (-53).
  change (fst (shl_align m2 (-53) (-53))) with m2.
  destruct (shl_align_le mM (-43) (-53)) as [HS _]; [lia|].
  change (-43 - -53) with 10 in HS. change (2 ^ 10) with 1024 in HS.
  assert (R2 : 6240827999256576 * 2 ^ 10
               <= Zpos (m2 + fst (shl_align mM (-43) (-53)))
               <= 6251823115534336 * 2 ^ 10).
  { rewrite Pos2Z.inj_add, HS. change (2 ^ 10) with 1024. lia. }
  destruct (round_range false (m2 + fst (shl_align mM (-43) (-53))) (-53) 10
              6240827999256576 6251823115534336)
    as (m' & -> & Hm'); [lia|lia|lia|exact R2|lia|lia|].
  reflexivity.
Qed.

End Rounding.

(** ** [relerr] *)

(** With a negative [expected] the code returns a positive number where
    the formula with the signed divisor is negative. *)
Lemma relerr_signed_divisor_differs :
  relerr (F.of_Z (-2)) (F.of_Z (-1)) = Ok (F.of_ratio 1 2)
  /\ relerr_signed_divisor (F.of_Z (-2)) (F.of_Z (-1)) = Ok (F.of_ratio (-1) 2)
  /\ ~ (forall expected actual,
          relerr expected actual = relerr_signed_divisor expected actual).
Proof.
  split; [vm_compute; reflexivity|].
  split; [vm_compute; reflexivity|].
  intros H. specialize (H (F.of_Z (-2)) (F.of_Z (-1))).
  vm_compute in H. discriminate H.
Qed.

(** C5 (as amended): [relerr(expected, actual)] is the absolute value of
    the signed quotient, that is [|actual - expected| / |expected|], and
    raises [ZeroDivisionError] when [expected] is a zero;
    [relerr(2.0, 2.0002)] is a float within [2e-17] of [0.0001]. *)
Theorem relerr_abs_quotient :
  (forall expected actual,
      relerr expected actual
      = (F.abs (actual - expected) / F.abs expected)%float)
  /\ (forall expected actual,
         (expected == F.zero)%float = true ->
         relerr expected actual = Raise ZeroDivisionError)
  /\ (exists r, relerr F.two f2_0002 = Ok r
                /\ (Qabs (F.to_Q r - (1 # 10000)) <= (2 # 100000000000000000))%Q
                /\ (Qabs (F.to_Q r - F.to_Q f0_0001) <= (2 # 100000000000000000))%Q).
Proof.
  split; [|split].
  - intros expected actual. unfold relerr, pydiv.
    rewrite eqb_abs_zero.
    destruct (expected == F.zero)%float; [reflexivity|].
    simpl. now rewrite abs_div.
  - intros expected actual H. unfold relerr, pydiv. now rewrite H.
  - eexists. split; [vm_compute; reflexivity|].
    split; vm_compute; intros H; discriminate H.
Qed.

Lemma relerr_abs_quotient_witness :
  relerr F.zero F.one = Raise ZeroDivisionError.
Proof.
  apply (proj1 (proj2 relerr_abs_quotient)). reflexivity.
Defined.

(** ** Where [TooDeep] can come from *)

Lemma bind_not_too_deep {A B : Type} (r : result A) (k : A -> result B) :
  r <> TooDeep -> (forall a, k a <> TooDeep) -> bind r k <> TooDeep.
Proof. destruct r; simpl; auto; discriminate. Qed.

Lemma call_not_too_deep (r : exn + float) : call r <> TooDeep.
Proof. destruct r; discriminate. Qed.

Lemma pydiv_not_too_deep (x y : float) : (x / y)%float <> TooDeep.
Proof. unfold pydiv. destruct (y == F.zero)%float; discriminate. Qed.

Lemma assert_not_too_deep (c : bool) : assert c <> TooDeep.
Proof. destruct c; discriminate. Qed.

Lemma relerr_not_too_deep (e a : float) : relerr e a <> TooDeep.
Proof.
  unfold relerr. apply bind_not_too_deep; [apply pydiv_not_too_deep|].
  discriminate.
Qed.

Lemma mul_value_not_too_deep (m : float) (v : option float) :
  mul_value m v <> TooDeep.
Proof. destruct v; discriminate. Qed.

Lemma abs_summation_not_too_deep (S : Type) (sequence : S -> step float S)
      (fuel : nat) (st : S) :
  abs_summation sequence fuel st <> TooDeep.
Proof.
  unfold abs_summation. destruct (sequence st) as [s st' | | e]; try discriminate.
  revert st' s. induction fuel as [|fuel IH]; intros st' s; simpl; [discriminate|].
  destruct (sequence st') as [t st'' | | e]; try discriminate.
  apply bind_not_too_deep; [apply assert_not_too_deep|intros _].
  apply bind_not_too_deep; [apply pydiv_not_too_deep|intros r].
  destruct (r <= EPSILON)%float; [discriminate|apply IH].
Qed.

Lemma limit_not_too_deep (S : Type) (sequence : S -> step float S)
      (fuel : nat) (st : S) :
  limit sequence fuel st <> TooDeep.
Proof.
  unfold limit. destruct (sequence st) as [c0 st' | | e]; try discriminate.
  revert st' c0. induction fuel as [|fuel IH]; intros st' c0; simpl; [discriminate|].
  destruct (sequence st') as [c st'' | | e]; try discriminate.
  destruct (c == F.zero)%float; [discriminate|].
  apply bind_not_too_deep; [apply relerr_not_too_deep|intros r].
  destruct (r <= EPSILON)%float; [discriminate|apply IH].
Qed.

(** ** The incomplete gamma functions: branch selection *)

Section GammaFacts.

Variables math_log math_exp math_lgamma : float -> exn + float.
Variable MAXLOG : float.

Local Abbreviation below := (gamma_below math_log math_exp math_lgamma MAXLOG).
Local Abbreviation above := (gamma_above math_log math_exp math_lgamma MAXLOG).
Local Abbreviation below_series := (below_series math_log math_exp math_lgamma MAXLOG).
Local Abbreviation above_fraction := (above_fraction math_log math_exp math_lgamma MAXLOG).

Lemma below_unfold (depth fuel : nat) (a x : float) :
  below (S depth) fuel a x
  = (assert (F.zero < a)%float ;;
     assert (F.zero <= x)%float ;;
     if (x == F.zero)%float then Ok F.zero
     else if (x > F.max F.one a)%float
          then fmap complement (above depth fuel a x)
          else below_series fuel a x).
Proof. reflexivity. Qed.

Lemma above_unfold (depth fuel : nat) (a x : float) :
  above (S depth) fuel a x
  = (assert (F.zero < a)%float ;;
     assert (F.zero <= x)%float ;;
     if (x <= F.max F.one a)%float
     then fmap complement (below depth fuel a x)
     else above_fraction fuel a x).
Proof. reflexivity. Qed.

(** Where a function does not delegate, its result does not depend on
    the depth it is given. *)
Lemma below_direct (depth fuel : nat) (a x : float) :
  (x > F.max F.one a)%float = false ->
  below (S depth) fuel a x = below 1 fuel a x.
Proof. intros H. rewrite !below_unfold, H. reflexivity. Qed.

Lemma above_direct (depth fuel : nat) (a x : float) :
  (x <= F.max F.one a)%float = false ->
  above (S depth) fuel a x = above 1 fuel a x.
Proof. intros H. rewrite !above_unfold, H. reflexivity. Qed.

Lemma gt_max_not_zero (a x : float) :
  (x > F.max F.one a)%float = true -> (x == F.zero)%float = false.
Proof.
  intros H. destruct (x == F.zero)%float eqn:E; [|reflexivity].
  apply (zero_le_max a) in E. apply gt_excludes_le in H. congruence.
Qed.

Lemma below_delegates (depth fuel : nat) (a x : float) :
  (F.zero < a)%float = true -> (F.zero <= x)%float = true ->
  (x > F.max F.one a)%float = true ->
  below (S depth) fuel a x = fmap complement (above depth fuel a x).
Proof.
  intros Ha Hx H. rewrite below_unfold, Ha, Hx, H, (gt_max_not_zero _ _ H).
  reflexivity.
Qed.

Lemma above_delegates (depth fuel : nat) (a x : float) :
  (F.zero < a)%float = true -> (F.zero <= x)%float = true ->
  (x <= F.max F.one a)%float = true ->
  above (S depth) fuel a x = fmap complement (below depth fuel a x).
Proof. intros Ha Hx H. rewrite above_unfold, Ha, Hx, H. reflexivity. Qed.

(** Two nested calls are all the functions ever need. *)
Lemma below_depth (depth fuel : nat) (a x : float) :
  below (2 + depth) fuel a x = below 2 fuel a x.
Proof.
  change (2 + depth)%nat with (S (S depth)).
  destruct (x > F.max F.one a)%float eqn:H.
  - rewrite !below_unfold, H.
    now rewrite (above_direct depth fuel a x (gt_excludes_le _ _ H)).
  - now rewrite (below_direct (S depth) fuel a x H), (below_direct 1 fuel a x H).
Qed.

Lemma above_depth (depth fuel : nat) (a x : float) :
  above (2 + depth) fuel a x = above 2 fuel a x.
Proof.
  change (2 + depth)%nat with (S (S depth)).
  destruct (x <= F.max F.one a)%float eqn:H.
  - assert (Hgt : (x > F.max F.one a)%float = false).
    { destruct (x > F.max F.one a)%float eqn:E; [|reflexivity].
      apply gt_excludes_le in E. congruence. }
    rewrite !above_unfold, H.
    now rewrite (below_direct depth fuel a x Hgt).
  - now rewrite (above_direct (S depth) fuel a x H), (above_direct 1 fuel a x H).
Qed.

(** Neither the loops nor the library ever report [TooDeep]. *)
Lemma below_series_depth (fuel : nat) (a x : float) :
  below_series fuel a x <> TooDeep.
Proof.
  unfold below_series, exponent.
  apply bind_not_too_deep; [|intros w].
  { repeat (apply bind_not_too_deep; [apply call_not_too_deep|intros ?]).
    discriminate. }
  destruct (w < - MAXLOG)%float; [discriminate|].
  apply bind_not_too_deep; [apply call_not_too_deep|intros m].
  apply bind_not_too_deep; [apply pydiv_not_too_deep|intros ma].
  apply bind_not_too_deep; [apply abs_summation_not_too_deep|intros s].
  apply mul_value_not_too_deep.
Qed.

Lemma above_fraction_depth (fuel : nat) (a x : float) :
  above_fraction fuel a x <> TooDeep.
Proof.
  unfold above_fraction, exponent.
  apply bind_not_too_deep; [|intros w].
  { repeat (apply bind_not_too_deep; [apply call_not_too_deep|intros ?]).
    discriminate. }
  destruct (w < - MAXLOG)%float; [discriminate|].
  apply bind_not_too_deep; [apply call_not_too_deep|intros m].
  apply bind_not_too_deep; [apply limit_not_too_deep|intros s].
  apply mul_value_not_too_deep.
Qed.

Lemma below_1_series (fuel : nat) (a x : float) :
  (x > F.max F.one a)%float = false -> below 1 fuel a x <> TooDeep.
Proof.
  intros H. rewrite below_unfold, H.
  destruct (F.zero < a)%float; [|discriminate].
  destruct (F.zero <= x)%float; [|discriminate].
  simpl. destruct (x == F.zero)%float; [discriminate|].
  apply below_series_depth.
Qed.

Lemma above_1_fraction (fuel : nat) (a x : float) :
  (x <= F.max F.one a)%float = false -> above 1 fuel a x <> TooDeep.
Proof.
  intros H. rewrite above_unfold, H.
  destruct (F.zero < a)%float; [|discriminate].
  destruct (F.zero <= x)%float; [|discriminate].
  simpl. apply above_fraction_depth.
Qed.

Lemma fmap_not_too_deep {A B : Type} (f : A -> B) (r : result A) :
  r <> TooDeep -> fmap f r <> TooDeep.
Proof. destruct r; simpl; auto; discriminate. Qed.

Lemma below_2_returns (fuel : nat) (a x : float) :
  below 2 fuel a x <> TooDeep.
Proof.
  destruct (x > F.max F.one a)%float eqn:H.
  - rewrite below_unfold, H.
    destruct (F.zero < a)%float; [|discriminate].
    destruct (F.zero <= x)%float; [|discriminate].
    simpl. destruct (x == F.zero)%float; [discriminate|].
    apply fmap_not_too_deep, above_1_fraction, gt_excludes_le, H.
  - rewrite (below_direct 1 fuel a x H). now apply below_1_series.
Qed.

Lemma above_2_returns (fuel : nat) (a x : float) :
  above 2 fuel a x <> TooDeep.
Proof.
  destruct (x <= F.max F.one a)%float eqn:H.
  - rewrite above_unfold, H.
    destruct (F.zero < a)%float; [|discriminate].
    destruct (F.zero <= x)%float; [|discriminate].
    simpl. apply fmap_not_too_deep, below_1_series.
    destruct (x > F.max F.one a)%float eqn:E; [|reflexivity].
    apply gt_excludes_le in E. congruence.
  - rewrite (above_direct 1 fuel a x H). now apply above_1_fraction.
Qed.

Lemma not_gt_of_le (x m : float) :
  (x <= m)%float = true -> (x > m)%float = false.
Proof.
  intros H. destruct (x > m)%float eqn:E; [|reflexivity].
  apply gt_excludes_le in E. congruence.
Qed.

Lemma branches_complementary (a x : float) :
  (F.zero <= x)%float = true ->
  (x > F.max F.one a)%float = negb (x <= F.max F.one a)%float.
Proof.
  intros Hx. apply gt_is_not_le; [|apply max_not_nan].
  now apply le_not_nan in Hx.
Qed.


(** C2: for [a > 0], [gamma_below(a, 0)] returns exactly [0.] by the
    early return and [gamma_above(a, 0)] returns exactly [1.], as
    [1. - gamma_below(a, 0)]. *)
Theorem gamma_at_zero (depth fuel : nat) (a x : float) :
  (F.zero < a)%float = true -> (x == F.zero)%float = true ->
  below (1 + depth) fuel a x = Ok F.zero
  /\ above (2 + depth) fuel a x = Ok F.one
  /\ above (2 + depth) fuel a x
     = fmap complement (below (1 + depth) fuel a x).
Proof.
  intros Ha Hx.
  assert (Hx0 : (F.zero <= x)%float = true).
  { destruct x as [sx | sx | | sx mx ex]; try destruct sx;
      try discriminate Hx; reflexivity. }
  assert (Hb : forall d, below (S d) fuel a x = Ok F.zero).
  { intros d. rewrite below_unfold, Ha, Hx0, Hx. reflexivity. }
  split; [apply Hb|].
  change (2 + depth)%nat with (S (S depth)).
  rewrite (above_delegates (S depth) fuel a x Ha Hx0 (zero_le_max a x Hx)).
  rewrite !Hb. split; reflexivity.
Qed.

(** C4: for [a > 0] and [x >= 0] the two delegation tests are each
    other's negation; the function called by a delegating one computes
    its result itself, so that two nested calls always suffice. *)
Theorem delegation_terminates (fuel : nat) (a x : float) :
  (F.zero < a)%float = true -> (F.zero <= x)%float = true ->
  (x > F.max F.one a)%float = negb (x <= F.max F.one a)%float
  /\ ((x > F.max F.one a)%float = true ->
      above 1 fuel a x = above_fraction fuel a x
      /\ below 2 fuel a x = fmap complement (above 1 fuel a x))
  /\ ((x <= F.max F.one a)%float = true ->
      below 1 fuel a x
      = (if (x == F.zero)%float then Ok F.zero else below_series fuel a x)
      /\ above 2 fuel a x = fmap complement (below 1 fuel a x))
  /\ (forall depth,
         below (2 + depth) fuel a x = below 2 fuel a x
         /\ above (2 + depth) fuel a x = above 2 fuel a x)
  /\ below 2 fuel a x <> TooDeep
  /\ above 2 fuel a x <> TooDeep.
Proof.
  intros Ha Hx.
  split; [now apply branches_complementary|].
  split; [|split; [|split; [|split]]].
  - intros H. split.
    + rewrite above_unfold, Ha, Hx, (gt_excludes_le _ _ H). reflexivity.
    + now apply below_delegates.
  - intros H. split.
    + rewrite below_unfold, Ha, Hx, (not_gt_of_le _ _ H). reflexivity.
    + now apply above_delegates.
  - intros depth. split; [apply below_depth|apply above_depth].
  - apply below_2_returns.
  - apply above_2_returns.
Qed.

(** The underflow guard of [gamma_above]. *)
Lemma above_underflow (depth fuel : nat) (a x w : float) :
  (F.zero < a)%float = true -> (F.zero <= x)%float = true ->
  (x > F.max F.one a)%float = true ->
  exponent math_log math_lgamma a x = Ok w ->
  (w < - MAXLOG)%float = true ->
  above (1 + depth) fuel a x = Ok F.zero.
Proof.
  intros Ha Hx H Hw Hlt. change (1 + depth)%nat with (S depth).
  rewrite above_unfold, Ha, Hx, (gt_excludes_le _ _ H). simpl.
  unfold above_fraction. rewrite Hw. simpl. now rewrite Hlt.
Qed.

(** C3: where [gamma_above] does not delegate and the exponent [w] of the
    prefactor is below [-MAXLOG], it returns exactly [0.], whatever
    [math.exp] is and without a single iteration of [limit]; with a
    mathematical library that puts [log(5000)] in [[8, 9]], [log(2)] in
    [[0.5, 0.75]], [log(2^1023)] in [[709, 710]] and [lgamma(1)] at zero,
    [gamma_above(1, 5000)] returns [0.] and [gamma_below(1, 5000)]
    returns [1.]. *)
Theorem underflow_returns_zero :
  (forall depth a x w,
      (F.zero < a)%float = true -> (F.zero <= x)%float = true ->
      (x > F.max F.one a)%float = true ->
      exponent math_log math_lgamma a x = Ok w ->
      (w < - MAXLOG)%float = true ->
      above (1 + depth) 0 a x = Ok F.zero
      /\ forall fuel, above (1 + depth) fuel a x = Ok F.zero)
  /\ (forall l5000 g1 l2 lM,
         math_log (F.of_Z 5000) = inr l5000 ->
         (F.of_Z 8 <= l5000)%float = true -> (l5000 <= F.of_Z 9)%float = true ->
         math_lgamma F.one = inr g1 ->
         (g1 == F.zero)%float = true ->
         math_log F.two = inr l2 ->
         (F.of_ratio 1 2 <= l2)%float = true ->
         (l2 <= F.of_ratio 3 4)%float = true ->
         math_log (F.ldexp F.one EMAX) = inr lM ->
         (F.of_Z 709 <= lM)%float = true -> (lM <= F.of_Z 710)%float = true ->
         MAXLOG_init math_log = Ok MAXLOG ->
         forall depth fuel,
           above (1 + depth) fuel F.one (F.of_Z 5000) = Ok F.zero
           /\ below (2 + depth) fuel F.one (F.of_Z 5000) = Ok F.one).
Proof.
  split.
  - intros depth a x w Ha Hx H Hw Hlt.
    split; [|intros fuel]; now apply above_underflow with (w := w).
  - intros l5000 g1 l2 lM H5000 H8 H9 Hlg Hg H2 H05 H075 H1023 H709 H710 HM
           depth fuel.
    unfold MAXLOG_init in HM. rewrite H2, H1023 in HM. simpl in HM.
    injection HM as HM.
    assert (Ha : (F.zero < F.one)%float = true) by reflexivity.
    assert (Hx : (F.zero <= F.of_Z 5000)%float = true) by reflexivity.
    assert (H : (F.of_Z 5000 > F.max F.one F.one)%float = true) by reflexivity.
    assert (Hz : forall d, above (1 + d) fuel F.one (F.of_Z 5000) = Ok F.zero).
    { intros d.
      apply above_underflow
        with (w := (F.one * l5000 - F.of_Z 5000 - g1)%float);
        try assumption.
      - unfold exponent. rewrite H5000, Hlg. reflexivity.
      - rewrite <- HM. now apply exponent_5000. }
    split; [apply Hz|].
    change (2 + depth)%nat with (S (S depth)).
    rewrite (below_delegates (S depth) fuel _ _ Ha Hx H).
    change (S depth) with (1 + depth)%nat. rewrite Hz. reflexivity.
Qed.



End GammaFacts.



Lemma gamma_at_zero_witness :
  (F.zero < F.two)%float = true /\ (F.zero == F.zero)%float = true
  /\ gamma_below table_log no_exp table_lgamma table_MAXLOG 1 0 F.two F.zero
     = Ok F.zero
  /\ gamma_above table_log no_exp table_lgamma table_MAXLOG 2 0 F.two F.zero
     = Ok F.one.
Proof.
  split; [reflexivity|]. split; [reflexivity|].
  pose proof (gamma_at_zero table_log no_exp table_lgamma table_MAXLOG 0 0
                F.two F.zero eq_refl eq_refl) as [Hb [Ha _]].
  split; [exact Hb|exact Ha].
Defined.

Lemma delegation_terminates_witness :
  (F.zero < F.one)%float = true /\ (F.zero <= F.of_Z 5000)%float = true
  /\ gamma_below table_log no_exp table_lgamma table_MAXLOG 2 0
                 F.one (F.of_Z 5000) <> TooDeep
  /\ gamma_above table_log no_exp table_lgamma table_MAXLOG 2 0
                 F.one (F.of_Z 5000) <> TooDeep.
Proof.
  split; [reflexivity|]. split; [reflexivity|].
  pose proof (delegation_terminates table_log no_exp table_lgamma table_MAXLOG
                0 F.one (F.of_Z 5000) eq_refl eq_refl)
    as [_ [_ [_ [_ [Hb Ha]]]]].
  split; [exact Hb|exact Ha].
Defined.

Lemma underflow_returns_zero_witness :
  table_log (F.of_Z 5000) = inr log_5000
  /\ (F.of_Z 8 <= log_5000)%float = true /\ (log_5000 <= F.of_Z 9)%float = true
  /\ table_lgamma F.one = inr F.zero
  /\ table_log F.two = inr log_2
  /\ (F.of_ratio 1 2 <= log_2)%float = true
  /\ (log_2 <= F.of_ratio 3 4)%float = true
  /\ table_log (F.ldexp F.one EMAX) = inr log_2_1023
  /\ (F.of_Z 709 <= log_2_1023)%float = true
  /\ (log_2_1023 <= F.of_Z 710)%float = true
  /\ MAXLOG_init table_log = Ok table_MAXLOG
  /\ gamma_above table_log no_exp table_lgamma table_MAXLOG 1 0
                 F.one (F.of_Z 5000) = Ok F.zero
  /\ gamma_below table_log no_exp table_lgamma table_MAXLOG 2 0
                 F.one (F.of_Z 5000) = Ok F.one.
Proof.
  repeat (split; [reflexivity|]).
  apply (proj2 (underflow_returns_zero table_log no_exp table_lgamma
                  table_MAXLOG) log_5000 F.zero log_2 log_2_1023);
    reflexivity.
Defined.

(** ** Runs of generators *)

Lemma state_after_snoc {A S : Type} (next : S -> step A S) (k : nat) (s : S) :
  state_after next (Datatypes.S k) s
  = match state_after next k s with
    | Some s' => match next s' with Yield _ s'' => Some s'' | _ => None end
    | None => None
    end.
Proof.
  revert s. induction k as [|k IH]; intros s.
  - reflexivity.
  - change (state_after next (Datatypes.S (Datatypes.S k)) s)
      with (match next s with
            | Yield _ s' => state_after next (Datatypes.S k) s'
            | _ => None
            end).
    change (state_after next (Datatypes.S k) s)
      with (match next s with
            | Yield _ s' => state_after next k s'
            | _ => None
            end).
    destruct (next s) as [a s' | | e]; [apply IH|reflexivity|reflexivity].
Qed.

Lemma nth_yield_inv {A S : Type} (next : S -> step A S) (k : nat) (s : S) (a : A) :
  nth_yield next k s = Some a ->
  exists sk sk', state_after next k s = Some sk
                 /\ next sk = Yield a sk'
                 /\ state_after next (Datatypes.S k) s = Some sk'.
Proof.
  unfold nth_yield. intros H.
  destruct (state_after next k s) as [sk|] eqn:E; [|discriminate].
  destruct (next sk) as [a' sk' | | e] eqn:E'; try discriminate.
  injection H as ->. exists sk, sk'. repeat split; try assumption.
  now rewrite state_after_snoc, E, E'.
Qed.

(** ** The overflow guard of [continuants] *)

Lemma rescale_when_large (c : cstate) :
  rescales c = true -> rescale c = scaled c.
Proof. intros H. unfold rescale. now rewrite H. Qed.

Lemma ge_EPSINV_abs (x : float) :
  (x >= EPSINV)%float = true -> (F.abs x >= EPSINV)%float = true.
Proof.
  destruct x as [s | s | | s m e]; try destruct s; try discriminate;
    intros H; exact H.
Qed.

Lemma no_rescale_when_small (c : cstate) :
  rescales_magnitude c = false -> rescale c = c.
Proof.
  unfold rescales_magnitude, rescale, rescales. intros H.
  apply orb_false_iff in H as [Hp Hq].
  destruct (c_p c >= EPSINV)%float eqn:Ep.
  { apply ge_EPSINV_abs in Ep. congruence. }
  destruct (c_q c >= EPSINV)%float eqn:Eq.
  { apply ge_EPSINV_abs in Eq. congruence. }
  reflexivity.
Qed.

(** C7 (the code departs from it): the term [(-EPSINV, 1.)] gives the
    continuant [(-EPSINV, 1.)], whose numerator has magnitude [EPSINV];
    the guard compares the signed components, so that nothing is rescaled
    and the continuant is yielded as it is. *)
Theorem rescale_misses_negative :
  let c := recurrence cstate_init (- EPSINV)%float F.one in
  c_p c = (- EPSINV)%float
  /\ c_q c = F.one
  /\ rescales_magnitude c = true
  /\ rescales c = false
  /\ rescale c = c
  /\ rescale c <> scaled c
  /\ continuants iter_list ([((- EPSINV)%float, F.one)], cstate_init)
     = Yield ((- EPSINV)%float, F.one) ([], c).
Proof.
  vm_compute. repeat split; try reflexivity. discriminate.
Qed.

(** ** [continuants]: the recurrence *)

Section ContinuantsFacts.

Variable S : Type.
Variable contfrac : S -> step (float * float) S.

Lemma continuants_step (s s' : S) (c : cstate) (n d : float) :
  contfrac s = Yield (n, d) s' ->
  continuants contfrac (s, c)
  = let c' := rescale (recurrence c n d) in
    if (c_q c' != F.zero)%float
    then Yield (c_p c', c_q c') (s', c')
    else Throw AssertionError.
Proof. intros H. unfold continuants. simpl fst. now rewrite H. Qed.

Lemma continuants_yield_nonzero (st st' : S * cstate) (p q : float) :
  continuants contfrac st = Yield (p, q) st' -> (q == F.zero)%float = false.
Proof.
  unfold continuants. destruct (contfrac (fst st)) as [[n d] s' | | e];
    try discriminate.
  destruct (c_q _ == F.zero)%float eqn:E; simpl; [discriminate|].
  intros H. injection H as _ <- _. exact E.
Qed.

Lemma continuants_run (k : nat) (s sk : S) (c : cstate) :
  state_after contfrac k s = Some sk ->
  asserted c (fst (take contfrac k s)) = true ->
  state_after (continuants contfrac) k (s, c)
  = Some (sk, carried c (fst (take contfrac k s))).
Proof.
  revert s c. induction k as [|k IH]; intros s c Hs Ha.
  - simpl in *. now injection Hs as ->.
  - simpl in Hs, Ha |- *. unfold continuants at 1. simpl fst.
    destruct (contfrac s) as [[n d] s' | | e] eqn:E; try discriminate.
    destruct (take contfrac k s') as [l en] eqn:El. simpl in Ha |- *.
    apply andb_true_iff in Ha as [Hq Ha]. rewrite Hq.
    rewrite (IH s' _ Hs); rewrite El; [reflexivity|exact Ha].
Qed.

Lemma mul_zero_not_finite (d : float) :
  F.is_finite d = false -> (d * F.zero)%float = F.nan.
Proof. destruct d as [s | s | | s m e]; try discriminate; reflexivity. Qed.

Lemma add_nan_l (y : float) : (F.nan + y)%float = F.nan.
Proof. destruct y; reflexivity. Qed.

Lemma add_nan_r (x : float) : (x + F.nan)%float = F.nan.
Proof. destruct x; reflexivity. Qed.

Lemma mul_one_not_finite (d : float) :
  F.is_finite d = false -> F.is_finite (d * F.one)%float = false.
Proof.
  destruct d as [s | s | | s m e]; try discriminate; intros _; reflexivity.
Qed.

Lemma mul_zero_r_cases (n : float) :
  (exists s, (n * F.zero)%float = S754_zero s) \/ (n * F.zero)%float = F.nan.
Proof.
  destruct n as [s | s | | s m e];
    [left; eexists; reflexivity|right; reflexivity|right; reflexivity
    |left; eexists; reflexivity].
Qed.

Lemma add_not_finite (u v : float) :
  F.is_finite u = false ->
  (exists s, v = S754_zero s) \/ v = F.nan ->
  F.is_finite (u + v)%float = false.
Proof.
  intros Hu [[s ->]| ->]; destruct u as [su | su | | su mu eu];
    try discriminate Hu; try reflexivity; destruct su, s; reflexivity.
Qed.

Lemma rescale_nan_p (c : cstate) :
  F.is_nan (c_p c) = true -> F.is_nan (c_p (rescale c)) = true.
Proof.
  intros H. unfold rescale. destruct (rescales c); [|exact H].
  cbn [scaled c_p]. destruct (c_p c); try discriminate H. reflexivity.
Qed.

Lemma rescale_nan_q (c : cstate) :
  F.is_nan (c_q c) = true -> F.is_nan (c_q (rescale c)) = true.
Proof.
  intros H. unfold rescale. destruct (rescales c); [|exact H].
  cbn [scaled c_q]. destruct (c_q c); try discriminate H. reflexivity.
Qed.

Lemma rescale_not_finite_q (c : cstate) :
  F.is_finite (c_q c) = false -> (c_q (rescale c) == F.zero)%float = false.
Proof.
  intros H. unfold rescale. destruct (rescales c).
  - cbn [scaled c_q]. destruct (c_q c) as [s | s | | s m e];
      try discriminate H; try destruct s; reflexivity.
  - destruct (c_q c) as [s | s | | s m e];
      try discriminate H; try destruct s; reflexivity.
Qed.

Lemma nan_not_finite (x : float) : F.is_nan x = true -> F.is_finite x = false.
Proof. destruct x; try discriminate; reflexivity. Qed.

(** C6 (as amended): from the seed [(1., 0.)], [(0., 1.)], each term
    [(n, d)] taken from the input turns the carried pairs [(p0, q0)],
    [(p, q)] into [(p, q)], [(d*p + n*p0, d*q + n*q0)] (rescaled when the
    guard fires), whatever the input; the first continuant yielded, absent
    rescaling, equals [(n0, d0)] when [n0] and [d0] are finite and [d0] is
    not zero (a zero [n0] up to its sign); when [d0] is an infinity or a
    NaN its numerator is NaN, and when [n0] is an infinity or a NaN its
    denominator is NaN. *)
Theorem continuants_recurrence :
  (c_p0 cstate_init = F.one /\ c_q0 cstate_init = F.zero
   /\ c_p cstate_init = F.zero /\ c_q cstate_init = F.one)
  /\ (forall c n d,
         recurrence c n d
         = {| c_p0 := c_p c;
              c_q0 := c_q c;
              c_p := (d * c_p c + n * c_p0 c)%float;
              c_q := (d * c_q c + n * c_q0 c)%float |})
  /\ (forall s s' c n d,
         contfrac s = Yield (n, d) s' ->
         let c' := rescale (recurrence c n d) in
         continuants contfrac (s, c)
         = if (c_q c' != F.zero)%float
           then Yield (c_p c', c_q c') (s', c')
           else Throw AssertionError)
  /\ (forall k s sk c,
         state_after contfrac k s = Some sk ->
         asserted c (fst (take contfrac k s)) = true ->
         state_after (continuants contfrac) k (s, c)
         = Some (sk, carried c (fst (take contfrac k s))))
  /\ (forall s s' n0 d0,
         contfrac s = Yield (n0, d0) s' ->
         F.valid n0 = true -> F.is_finite n0 = true ->
         F.valid d0 = true -> F.is_finite d0 = true ->
         (d0 == F.zero)%float = false ->
         rescales (recurrence cstate_init n0 d0) = false ->
         exists p q,
           continuants contfrac (s, cstate_init)
           = Yield (p, q) (s', recurrence cstate_init n0 d0)
           /\ (p == n0)%float = true /\ q = d0
           /\ ((n0 == F.zero)%float = false -> p = n0))
  /\ (forall s s' n0 d0,
         contfrac s = Yield (n0, d0) s' ->
         F.is_finite d0 = false ->
         exists p q st,
           continuants contfrac (s, cstate_init) = Yield (p, q) st
           /\ F.is_nan p = true)
  /\ (forall s s' n0 d0,
         contfrac s = Yield (n0, d0) s' ->
         F.is_finite n0 = false ->
         exists p q st,
           continuants contfrac (s, cstate_init) = Yield (p, q) st
           /\ F.is_nan q = true).
Proof.
  split; [repeat split|]. split; [reflexivity|].
  split; [intros; now apply continuants_step|].
  split; [intros; now apply continuants_run|].
  split; [|split].
  - intros s s' n0 d0 Hy Hvn Hfn Hvd Hfd Hz Hr.
    rewrite (continuants_step s s' cstate_init n0 d0 Hy).
    unfold rescale. rewrite Hr. cbv zeta.
    assert (Hq : c_q (recurrence cstate_init n0 d0) = d0)
      by now apply first_denominator.
    rewrite Hq, Hz. simpl negb. cbv iota.
    eexists. eexists. split; [reflexivity|]. split; [|split; [reflexivity|]].
    + now apply first_numerator.
    + intros Hn. cbn [recurrence c_p cstate_init c_p0].
      rewrite (mul_one_r n0 Hvn Hfn).
      destruct (mul_zero_r d0 Hfd) as [sg ->].
      destruct n0 as [sn | sn | | sn mn en]; try discriminate Hfn.
      * destruct sn; discriminate Hn.
      * reflexivity.
  - intros s s' n0 d0 Hy Hd.
    rewrite (continuants_step s s' cstate_init n0 d0 Hy). cbv zeta.
    set (c := recurrence cstate_init n0 d0).
    assert (Hp : F.is_nan (c_p c) = true).
    { unfold c. cbn [recurrence c_p cstate_init c_p0].
      now rewrite (mul_zero_not_finite d0 Hd), add_nan_l. }
    assert (Hq : F.is_finite (c_q c) = false).
    { unfold c. cbn [recurrence c_q cstate_init c_q0].
      apply add_not_finite; [now apply mul_one_not_finite|].
      apply mul_zero_r_cases. }
    rewrite (rescale_not_finite_q c Hq). cbn [negb].
    eexists. eexists. eexists. split; [reflexivity|].
    now apply rescale_nan_p.
  - intros s s' n0 d0 Hy Hn.
    rewrite (continuants_step s s' cstate_init n0 d0 Hy). cbv zeta.
    set (c := recurrence cstate_init n0 d0).
    assert (Hq : F.is_nan (c_q c) = true).
    { unfold c. cbn [recurrence c_q cstate_init c_q0].
      now rewrite (mul_zero_not_finite n0 Hn), add_nan_r. }
    rewrite (rescale_not_finite_q c (nan_not_finite _ Hq)). cbn [negb].
    eexists. eexists. eexists. split; [reflexivity|].
    now apply rescale_nan_q.
Qed.

End ContinuantsFacts.

Lemma continuants_recurrence_witness :
  iter_list [(F.two, F.of_Z 3)] = Yield (F.two, F.of_Z 3) []
  /\ F.valid F.two = true /\ F.is_finite F.two = true
  /\ F.valid (F.of_Z 3) = true /\ F.is_finite (F.of_Z 3) = true
  /\ (F.of_Z 3 == F.zero)%float = false
  /\ rescales (recurrence cstate_init F.two (F.of_Z 3)) = false
  /\ exists p q,
      continuants iter_list ([(F.two, F.of_Z 3)], cstate_init)
      = Yield (p, q) ([], recurrence cstate_init F.two (F.of_Z 3))
      /\ (p == F.two)%float = true /\ q = F.of_Z 3
      /\ ((F.two == F.zero)%float = false -> p = F.two).
Proof.
  repeat (split; [reflexivity|]).
  apply (proj1 (proj2 (proj2 (proj2 (proj2
           (continuants_recurrence (list (float * float)) iter_list))))));
    reflexivity.
Defined.

(** C6 as worded fails: the first term [(1., -inf)] yields, without
    rescaling, the continuant [(nan, -inf)], since [-inf*0.] is NaN. *)
Lemma first_continuant_infinite_denominator :
  rescales (recurrence cstate_init F.one (S754_infinity true)) = false
  /\ continuants iter_list ([(F.one, S754_infinity true)], cstate_init)
     = Yield (F.nan, S754_infinity true)
             ([], recurrence cstate_init F.one (S754_infinity true))
  /\ ~ (forall (S : Type) (contfrac : S -> step (float * float) S)
               (s s' : S) (n0 d0 : float),
           contfrac s = Yield (n0, d0) s' ->
           rescales (recurrence cstate_init n0 d0) = false ->
           exists st, continuants contfrac (s, cstate_init)
                      = Yield (n0, d0) st).
Proof.
  split; [reflexivity|]. split; [reflexivity|]. intros H.
  destruct (H (list (float * float)) iter_list
              [(F.one, S754_infinity true)] [] F.one (S754_infinity true)
              eq_refl eq_refl) as [st Hst].
  discriminate Hst.
Qed.

(** ** [convergents] *)

Section ConvergentsFacts.

Variable S : Type.
Variable contfrac : S -> step (float * float) S.

Local Abbreviation cs := (continuants contfrac).
Local Abbreviation cv := (convergents contfrac).

Lemma convergents_first (st st' : S * cstate) (p q : float) :
  cs st = Yield (p, q) st' ->
  cv (st, VStart) = Yield (F.div p q) (st', VFor p q).
Proof.
  intros H. unfold cv, convergents. fold cs. rewrite H.
  unfold pydiv. now rewrite (continuants_yield_nonzero _ _ _ _ _ _ H).
Qed.

Lemma convergents_next (st st' : S * cstate) (p0 q0 p q : float) :
  cs st = Yield (p, q) st' ->
  (p == F.zero)%float = false ->
  cv (st, VFor p0 q0) = Yield (F.div p q) (st', VFor p q).
Proof.
  intros H Hp. unfold cv, convergents. fold cs. rewrite H, Hp.
  unfold pydiv. now rewrite (continuants_yield_nonzero _ _ _ _ _ _ H).
Qed.

Lemma convergents_break (st st' : S * cstate) (p0 q0 p q : float) :
  cs st = Yield (p, q) st' ->
  (p == F.zero)%float = true ->
  (q0 == F.zero)%float = false ->
  cv (st, VFor p0 q0)
  = Yield (F.div p0 q0) (st', VForever (F.div p0 q0)).
Proof.
  intros H Hp Hq. unfold cv, convergents. fold cs. rewrite H, Hp.
  unfold pydiv. now rewrite Hq.
Qed.

Lemma convergents_forever (k : nat) (st : S * cstate) (c : float) :
  state_after cv k (st, VForever c) = Some (st, VForever c)
  /\ nth_yield cv k (st, VForever c) = Some c.
Proof.
  assert (H : state_after cv k (st, VForever c) = Some (st, VForever c)).
  { induction k as [|k IH]; [reflexivity|].
    rewrite state_after_snoc, IH. reflexivity. }
  split; [exact H|]. unfold nth_yield. rewrite H. reflexivity.
Qed.

Lemma state_after_plus {A T : Type} (next : T -> step A T) (j k : nat) (s s' : T) :
  state_after next j s = Some s' ->
  state_after next (j + k) s = state_after next k s'.
Proof.
  revert s. induction j as [|j IH]; intros s H.
  - simpl in *. now injection H as ->.
  - simpl in *. destruct (next s) as [a s1 | | e]; try discriminate.
    now apply IH.
Qed.

(** While the numerators after the first are not zero, the generator
    yields the ratio of each continuant and retains it. *)
Lemma convergents_running (st0 : S * cstate) (pq : nat -> float * float) (k : nat) :
  (forall i, (i <= k)%nat -> nth_yield cs i st0 = Some (pq i)) ->
  (forall i, (1 <= i <= k)%nat -> (fst (pq i) == F.zero)%float = false) ->
  exists st,
    state_after cs (Datatypes.S k) st0 = Some st
    /\ state_after cv (Datatypes.S k) (st0, VStart)
       = Some (st, VFor (fst (pq k)) (snd (pq k)))
    /\ nth_yield cv k (st0, VStart) = Some (ratio (pq k))
    /\ (snd (pq k) == F.zero)%float = false.
Proof.
  intros Hcs Hnz. induction k as [|k IH].
  - destruct (nth_yield_inv cs 0 st0 (pq 0) (Hcs 0%nat (le_n 0)))
      as (s0 & s1 & H0 & Hy & H1).
    simpl in H0. injection H0 as <-.
    exists s1. split; [exact H1|].
    destruct (pq 0%nat) as [p q] eqn:E. simpl fst. simpl snd.
    pose proof (convergents_first _ _ _ _ Hy) as Hc.
    unfold nth_yield. rewrite state_after_snoc.
    change (state_after cv 0 (st0, VStart)) with (Some (st0, VStart)).
    cbv beta iota. rewrite Hc.
    repeat split. exact (continuants_yield_nonzero _ _ _ _ _ _ Hy).
  - destruct IH as (st & Hst & Hcv & _ & _).
    { intros i Hi. apply Hcs. lia. }
    { intros i Hi. apply Hnz. lia. }
    destruct (nth_yield_inv cs (Datatypes.S k) st0 (pq (Datatypes.S k))
                (Hcs (Datatypes.S k) (le_n _)))
      as (sk & sk' & Hk & Hy & Hk').
    rewrite Hst in Hk. injection Hk as <-.
    exists sk'. split; [exact Hk'|].
    destruct (pq (Datatypes.S k)) as [p q] eqn:E. simpl fst. simpl snd.
    assert (Hp : (p == F.zero)%float = false).
    { specialize (Hnz (Datatypes.S k)). rewrite E in Hnz. apply Hnz. lia. }
    pose proof (convergents_next _ _ (fst (pq k)) (snd (pq k)) _ _ Hy Hp) as Hc.
    unfold nth_yield. rewrite (state_after_snoc cv (Datatypes.S k)), Hcv, Hc.
    repeat split. exact (continuants_yield_nonzero _ _ _ _ _ _ Hy).
Qed.

(** C8: the first continuant's ratio is yielded whatever its numerator;
    each later continuant with a nonzero numerator has its ratio yielded
    and retained; from the first later continuant with a zero numerator
    on, no continuant is consumed any more and every element yielded is
    the ratio retained last. *)
Theorem convergents_spec (st0 : S * cstate) (pq : nat -> float * float) (k : nat) :
  (forall i, (i <= Datatypes.S k)%nat -> nth_yield cs i st0 = Some (pq i)) ->
  (forall i, (1 <= i <= k)%nat -> (fst (pq i) == F.zero)%float = false) ->
  (forall i, (i <= k)%nat -> nth_yield cv i (st0, VStart) = Some (ratio (pq i)))
  /\ ((fst (pq (Datatypes.S k)) == F.zero)%float = false ->
      nth_yield cv (Datatypes.S k) (st0, VStart)
      = Some (ratio (pq (Datatypes.S k))))
  /\ ((fst (pq (Datatypes.S k)) == F.zero)%float = true ->
      exists st,
        state_after cs (Datatypes.S (Datatypes.S k)) st0 = Some st
        /\ forall j, (Datatypes.S k <= j)%nat ->
             nth_yield cv j (st0, VStart) = Some (ratio (pq k))
             /\ state_after cv (Datatypes.S j) (st0, VStart)
                = Some (st, VForever (ratio (pq k)))).
Proof.
  intros Hcs Hnz. split; [|split].
  - intros i Hi.
    destruct (convergents_running st0 pq i) as (st & _ & _ & H & _);
      [intros; apply Hcs; lia|intros; apply Hnz; lia|exact H].
  - intros Hp.
    destruct (convergents_running st0 pq (Datatypes.S k))
      as (st & _ & _ & H & _); [exact Hcs| |exact H].
    intros i Hi. destruct (Nat.eq_dec i (Datatypes.S k)) as [->|Hne];
      [exact Hp|apply Hnz; lia].
  - intros Hp.
    destruct (convergents_running st0 pq k) as (st & Hst & Hcv & _ & Hq);
      [intros; apply Hcs; lia|exact Hnz|].
    destruct (nth_yield_inv cs (Datatypes.S k) st0 (pq (Datatypes.S k))
                (Hcs (Datatypes.S k) (le_n _)))
      as (sk & sk' & Hk & Hy & Hk').
    rewrite Hst in Hk. injection Hk as <-.
    exists sk'. split; [exact Hk'|]. intros j Hj.
    destruct (pq (Datatypes.S k)) as [p q] eqn:E. simpl fst in Hp.
    pose proof (convergents_break _ _ (fst (pq k)) (snd (pq k)) _ _ Hy Hp Hq)
      as Hb. fold (ratio (pq k)) in Hb.
    assert (Hsk : state_after cv (Datatypes.S (Datatypes.S k)) (st0, VStart)
                  = Some (sk', VForever (ratio (pq k)))).
    { now rewrite state_after_snoc, Hcv, Hb. }
    replace j with (Datatypes.S k + (j - Datatypes.S k))%nat by lia.
    remember (j - Datatypes.S k)%nat as n eqn:En. clear En Hj.
    destruct n as [|n].
    + rewrite Nat.add_0_r. split; [|exact Hsk].
      unfold nth_yield. now rewrite Hcv, Hb.
    + replace (Datatypes.S k + Datatypes.S n)%nat
        with (Datatypes.S (Datatypes.S k) + n)%nat by lia.
      split.
      * unfold nth_yield.
        rewrite (state_after_plus cv _ n _ _ Hsk).
        destruct (convergents_forever n sk' (ratio (pq k))) as [-> _].
        reflexivity.
      * replace (Datatypes.S (Datatypes.S (Datatypes.S k) + n))
          with (Datatypes.S (Datatypes.S k) + Datatypes.S n)%nat by lia.
        rewrite (state_after_plus cv _ (Datatypes.S n) _ _ Hsk).
        apply convergents_forever.
Qed.

End ConvergentsFacts.

Lemma convergents_spec_witness :
  (forall i, (i <= 1)%nat ->
             nth_yield (continuants iter_list) i (terminating_terms, cstate_init)
             = Some (terminating_continuant i))
  /\ (forall i, (1 <= i <= 0)%nat ->
                (fst (terminating_continuant i) == F.zero)%float = false)
  /\ (fst (terminating_continuant 1) == F.zero)%float = true
  /\ nth_yield (convergents iter_list) 0
       ((terminating_terms, cstate_init), VStart) = Some F.one
  /\ nth_yield (convergents iter_list) 7
       ((terminating_terms, cstate_init), VStart) = Some F.one
  /\ state_after (convergents iter_list) 8
       ((terminating_terms, cstate_init), VStart)
     = Some (([(F.one, F.one)],
              {| c_p0 := F.one; c_q0 := F.one; c_p := F.zero; c_q := F.one |}),
             VForever F.one).
Proof.
  assert (H1 : forall i, (i <= 1)%nat ->
             nth_yield (continuants iter_list) i (terminating_terms, cstate_init)
             = Some (terminating_continuant i)).
  { intros [|[|i]] Hi; [reflexivity|reflexivity|lia]. }
  assert (H2 : forall i, (1 <= i <= 0)%nat ->
                (fst (terminating_continuant i) == F.zero)%float = false).
  { intros i Hi. lia. }
  split; [exact H1|]. split; [exact H2|]. split; [reflexivity|].
  destruct (convergents_spec (list (float * float)) iter_list
              (terminating_terms, cstate_init) terminating_continuant 0 H1 H2)
    as (Ha & _ & Hb).
  split; [exact (Ha 0%nat (le_n 0))|].
  destruct (Hb eq_refl) as (st & Hst & Hj).
  destruct (Hj 7%nat ltac:(lia)) as [Hy Hs].
  split; [exact Hy|].
  vm_compute in Hst. injection Hst as <-. exact Hs.
Defined.

(** ** The reducers on finite sequences *)

Lemma abs_summation_loop_exhausted (l : list float) (s : float) (fuel : nat) :
  (length l < fuel)%nat ->
  forallb summation_goes_on (combine (running s l) l) = true ->
  abs_summation_loop iter_list fuel l s = Ok None.
Proof.
  revert s fuel. induction l as [|t l IH]; intros s fuel Hf H.
  - destruct fuel; [inversion Hf|reflexivity].
  - destruct fuel as [|fuel]; [inversion Hf|].
    simpl in H. apply andb_true_iff in H as [H Hl].
    apply andb_true_iff in H as [H Hr].
    apply andb_true_iff in H as [Ht Hs].
    simpl. rewrite Ht. simpl. unfold pydiv.
    apply negb_true_iff in Hs. rewrite Hs. simpl.
    apply negb_true_iff in Hr. rewrite Hr.
    apply IH; [simpl in Hf; lia|exact Hl].
Qed.

Lemma limit_loop_exhausted (l : list float) (c0 : float) (fuel : nat) :
  (length l < fuel)%nat ->
  forallb limit_goes_on (combine (c0 :: l) l) = true ->
  limit_loop iter_list fuel l c0 = Ok None.
Proof.
  revert c0 fuel. induction l as [|c l IH]; intros c0 fuel Hf H.
  - destruct fuel; [inversion Hf|reflexivity].
  - destruct fuel as [|fuel]; [inversion Hf|].
    simpl in H. apply andb_true_iff in H as [H Hl].
    apply andb_true_iff in H as [H Hr].
    apply andb_true_iff in H as [Hc Hc0].
    apply negb_true_iff in Hc, Hc0, Hr.
    simpl. rewrite Hc. unfold relerr, pydiv. rewrite Hc0. simpl.
    rewrite Hr.
    apply IH; [simpl in Hf; lia|exact Hl].
Qed.

(** On the empty sequence both reducers let the [StopIteration] of their
    first [next()] escape. *)
Lemma reducers_on_empty_sequence :
  summation_exhausts [] = true
  /\ limit_exhausts [] = true
  /\ abs_summation iter_list 1 [] = Raise StopIteration
  /\ limit iter_list 1 [] = Raise StopIteration
  /\ ~ (forall (l : list float) fuel,
          (length l <= fuel)%nat ->
          (summation_exhausts l = true ->
           abs_summation iter_list fuel l = Ok None)
          /\ (limit_exhausts l = true -> limit iter_list fuel l = Ok None)).
Proof.
  repeat (split; [reflexivity|]).
  intros H. destruct (H [] 1%nat (Nat.le_0_l 1)) as [H1 _].
  specialize (H1 eq_refl). discriminate H1.
Qed.

(** C10 (as amended): on a finite sequence that is not empty, when no
    iteration over the elements after the first raises or meets the stopping
    test, [abs_summation] and [limit] return [None]; on the empty sequence
    they raise [StopIteration]. *)
Theorem reducers_exhausted (l : list float) (fuel : nat) :
  l <> [] -> (length l <= fuel)%nat ->
  (summation_exhausts l = true -> abs_summation iter_list fuel l = Ok None)
  /\ (limit_exhausts l = true -> limit iter_list fuel l = Ok None)
  /\ abs_summation iter_list fuel [] = Raise StopIteration
  /\ limit iter_list fuel [] = Raise StopIteration.
Proof.
  intros Hl Hf. destruct l as [|x l]; [congruence|]. simpl in Hf.
  split; [|split; [|split; reflexivity]].
  - intros H. apply abs_summation_loop_exhausted; [lia|exact H].
  - intros H. apply limit_loop_exhausted; [lia|exact H].
Qed.

Lemma reducers_exhausted_witness :
  [F.one; F.two; F.one] <> []
  /\ (length [F.one; F.two; F.one] <= 3)%nat
  /\ summation_exhausts [F.one; F.two; F.one] = true
  /\ limit_exhausts [F.one; F.two; F.one] = true
  /\ abs_summation iter_list 3 [F.one; F.two; F.one] = Ok None
  /\ limit iter_list 3 [F.one; F.two; F.one] = Ok None.
Proof.
  split; [discriminate|]. split; [simpl; lia|]. split; [reflexivity|].
  split; [reflexivity|].
  destruct (reducers_exhausted [F.one; F.two; F.one] 3) as (Hs & Hl & _);
    [discriminate|simpl; lia|].
  split; [exact (Hs eq_refl)|exact (Hl eq_refl)].
Defined.

(** C9 (the code departs from it): the first element of the sequence is
    taken as the initial sum without the assertion; on [-1., 0.] the call
    returns [-1.]. *)
Theorem abs_summation_negative_first :
  (F.zero <= F.of_Z (-1))%float = false
  /\ abs_summation iter_list 1 [F.of_Z (-1); F.zero] = Ok (Some (F.of_Z (-1)))
  /\ forall fuel, abs_summation iter_list (S fuel) [F.of_Z (-1); F.zero]
                  = Ok (Some (F.of_Z (-1))).
Proof.
  split; [reflexivity|]. split; [reflexivity|]. intros fuel. reflexivity.
Qed.

(** A negative element after the first one, when the loop reaches it, does
    raise. *)
Lemma abs_summation_loop_asserts (S : Type) (sequence : S -> step float S)
      (fuel : nat) (st st' : S) (s t : float) :
  sequence st = Yield t st' ->
  (F.zero <= t)%float = false ->
  abs_summation_loop sequence (Datatypes.S fuel) st s = Raise AssertionError.
Proof. intros Hy Ht. simpl. now rewrite Hy, Ht. Qed.

(** * Further properties *)

(** ** Module constants *)

(** X1: the probing loops end: [EPSILON] is [2^-52], found after 52
    halvings, the least power of two whose sum with [1.] is not [1.];
    [EPSINV] is [2^52] and their product is [1.]; [EMAX] is 1023, found
    after 1022 increments, the largest exponent [math.ldexp(1., .)] takes
    without overflow. *)
Theorem probe_constants :
  (forall fuel, EPSILON_loop (53 + fuel) F.one = Ok EPSILON)
  /\ EPSILON_loop 52 F.one = Unfinished
  /\ EPSILON = F.ldexp F.one (-52)
  /\ (F.one + EPSILON != F.one)%float = true
  /\ (F.one + F.div EPSILON F.two == F.one)%float = true
  /\ EPSINV = F.ldexp F.one 52
  /\ (EPSINV * EPSILON)%float = F.one
  /\ (forall fuel, EMAX_loop (1023 + fuel) 1 = Ok EMAX)
  /\ EMAX_loop 1022 1 = Unfinished
  /\ EMAX = 1023%Z
  /\ F.is_finite (F.ldexp F.one EMAX) = true
  /\ F.ldexp F.one (EMAX + 1) = S754_infinity false.
Proof.
  repeat (split; [vm_compute; reflexivity|]).
  vm_compute; reflexivity.
Qed.

(** ** relerr *)

Lemma sub_same_finite (s : bool) (m : positive) (e : Z) :
  F.sub (S754_finite s m e) (S754_finite s m e) = F.zero.
Proof.
  unfold F.sub, SFsub. rewrite Z.min_id, Z.sub_diag. reflexivity.
Qed.

(** X2: [relerr(x, x)] is [0.] for every finite nonzero [x]; it raises for a
    zero and is NaN for an infinity or a NaN. *)
Theorem relerr_same (x : float) :
  relerr x x
  = match x with
    | S754_zero _ => Raise ZeroDivisionError
    | S754_finite _ _ _ => Ok F.zero
    | _ => Ok F.nan
    end.
Proof.
  destruct x as [s | s | | s m e]; try (destruct s; reflexivity);
    try reflexivity.
  unfold relerr. rewrite sub_same_finite. destruct s; reflexivity.
Qed.

Lemma abs_binary_round (s : bool) (m : positive) (e : Z) :
  SFabs (binary_round F.prec F.emax s m e)
  = binary_round F.prec F.emax false m e.
Proof.
  unfold binary_round.
  destruct (shl_align m e _) as [mz ez]. apply abs_binary_round_aux.
Qed.

Lemma abs_binary_normalize_opp (z e : Z) :
  SFabs (binary_normalize F.prec F.emax (- z) e false)
  = SFabs (binary_normalize F.prec F.emax z e false).
Proof.
  destruct z as [|p|p]; [reflexivity| |]; cbn [Z.opp binary_normalize];
    now rewrite !abs_binary_round.
Qed.

Lemma cond_Zopp_negb (s : bool) (z : Z) :
  cond_Zopp (negb s) z = (- cond_Zopp s z)%Z.
Proof. destruct s; simpl; lia. Qed.

Lemma abs_sub_opp (a e : float) :
  F.abs (F.sub (F.opp a) (F.opp e)) = F.abs (F.sub a e).
Proof.
  unfold F.abs, F.sub, F.opp.
  destruct a as [sa | sa | | sa ma ea], e as [se | se | | se me ee];
    try (destruct sa, se; reflexivity); try (destruct sa; reflexivity);
    try (destruct se; reflexivity); try reflexivity.
  cbv beta iota zeta delta [SFsub SFopp].
  rewrite !cond_Zopp_negb.
  replace (- cond_Zopp sa (Z.pos (fst (shl_align ma ea (Z.min ea ee))))
           - - cond_Zopp se (Z.pos (fst (shl_align me ee (Z.min ea ee)))))%Z
    with (- (cond_Zopp sa (Z.pos (fst (shl_align ma ea (Z.min ea ee))))
             - cond_Zopp se (Z.pos (fst (shl_align me ee (Z.min ea ee))))))%Z
    by lia.
  apply abs_binary_normalize_opp.
Qed.

Lemma abs_opp (x : float) : F.abs (F.opp x) = F.abs x.
Proof. destruct x; reflexivity. Qed.

Lemma eqb_opp_zero (x : float) :
  (F.opp x == F.zero)%float = (x == F.zero)%float.
Proof. destruct x as [s | s | | s m e]; try destruct s; reflexivity. Qed.

(** X3: [relerr] does not change when both arguments change sign. *)
Theorem relerr_opp (expected actual : float) :
  relerr (F.opp expected) (F.opp actual) = relerr expected actual.
Proof.
  unfold relerr, pydiv. rewrite eqb_opp_zero.
  destruct (expected == F.zero)%float; [reflexivity|]. simpl.
  now rewrite !abs_div, abs_sub_opp, abs_opp.
Qed.

(** ** limit *)

Section LimitFacts.

Variable S : Type.
Variable sequence : S -> step float S.

Lemma limit_loop_goes_on (fuel : nat) (st st' : S) (c0 c : float) :
  sequence st = Yield c st' ->
  limit_goes_on (c0, c) = true ->
  limit_loop sequence (Datatypes.S fuel) st c0 = limit_loop sequence fuel st' c.
Proof.
  intros Hy H. unfold limit_goes_on in H.
  apply andb_true_iff in H as [H Hr]. apply andb_true_iff in H as [Hc Hc0].
  apply negb_true_iff in Hc, Hc0, Hr.
  simpl. rewrite Hy, Hc. unfold relerr, pydiv. rewrite Hc0. simpl.
  now rewrite Hr.
Qed.

Lemma limit_loop_stops (fuel : nat) (st st' : S) (c0 c : float) :
  sequence st = Yield c st' ->
  limit_stops_at c0 c = true ->
  limit_loop sequence (Datatypes.S fuel) st c0 = Ok (Some c).
Proof.
  intros Hy H. unfold limit_stops_at in H. simpl. rewrite Hy.
  destruct (c == F.zero)%float; [reflexivity|]. simpl in H.
  apply andb_true_iff in H as [Hc0 Hr]. apply negb_true_iff in Hc0.
  unfold relerr, pydiv. rewrite Hc0. simpl. now rewrite Hr.
Qed.

Lemma last_default {A : Type} (l : list A) (a d d' : A) :
  last (a :: l) d = last (a :: l) d'.
Proof.
  revert a. induction l as [|b l IH]; intros a; [reflexivity|].
  change (last (b :: l) d = last (b :: l) d'). apply IH.
Qed.

Lemma limit_loop_first_stable (mid : list float) (st st' : S) (c0 c : float) (fuel : nat) :
  yields sequence st (mid ++ [c]) st' ->
  forallb limit_goes_on (combine (c0 :: mid) mid) = true ->
  limit_stops_at (last mid c0) c = true ->
  (length mid < fuel)%nat ->
  limit_loop sequence fuel st c0 = Ok (Some c).
Proof.
  revert st c0 fuel. induction mid as [|c1 mid IH]; intros st c0 fuel Hy Hg Hs Hf.
  - inversion Hy as [|s0 s1 s2 a l Hy1 Hy2]; subst.
    destruct fuel as [|fuel]; [inversion Hf|].
    now apply limit_loop_stops with (st' := s1).
  - inversion Hy as [|s0 s1 s2 a l Hy1 Hy2]; subst.
    destruct fuel as [|fuel]; [inversion Hf|].
    cbn [forallb combine] in Hg. apply andb_true_iff in Hg as [Hg1 Hg].
    rewrite (limit_loop_goes_on fuel st s1 c0 c1 Hy1 Hg1).
    apply IH; [exact Hy2|exact Hg| |simpl in Hf; lia].
    destruct mid as [|c2 mid]; [exact Hs|].
    now rewrite (last_default mid c2 c1 c0).
Qed.

(** X4: [limit] returns the first element, after the first one, that is zero
    or whose relative error from its predecessor is at most [EPSILON]. *)
Theorem limit_first_stable (mid : list float) (st st' : S) (c0 c : float) (fuel : nat) :
  yields sequence st (c0 :: mid ++ [c]) st' ->
  limit_exhausts (c0 :: mid) = true ->
  limit_stops_at (last mid c0) c = true ->
  (length mid < fuel)%nat ->
  limit sequence fuel st = Ok (Some c).
Proof.
  intros Hy Hg Hs Hf.
  inversion Hy as [|s0 s1 s2 a l Hy1 Hy2]; subst.
  unfold limit. rewrite Hy1.
  now apply limit_loop_first_stable with (mid := mid) (st' := st').
Qed.

(** X5: a first element that is zero, followed by a number that is not zero,
    makes [limit] divide by zero. *)
Theorem limit_after_zero (st st1 st2 : S) (c0 c : float) (fuel : nat) :
  sequence st = Yield c0 st1 ->
  sequence st1 = Yield c st2 ->
  (c0 == F.zero)%float = true ->
  (c == F.zero)%float = false ->
  limit sequence (Datatypes.S fuel) st = Raise ZeroDivisionError.
Proof.
  intros H0 H1 Hz Hc. unfold limit. rewrite H0. simpl. rewrite H1, Hc.
  unfold relerr, pydiv. now rewrite Hz.
Qed.

Lemma limit_loop_finite (fuel : nat) (st : S) (c0 v : float) :
  limit_loop sequence fuel st c0 = Ok (Some v) -> F.is_finite v = true.
Proof.
  revert st c0. induction fuel as [|fuel IH]; intros st c0; simpl; [discriminate|].
  destruct (sequence st) as [c st' | | e]; try discriminate.
  destruct (c == F.zero)%float eqn:Hc.
  - intros H. injection H as <-.
    destruct c as [s | s | | s m e]; try destruct s; try discriminate Hc; reflexivity.
  - unfold relerr, pydiv. destruct (c0 == F.zero)%float; [discriminate|]. simpl.
    destruct (F.abs (F.div (c - c0)%float c0) <= EPSILON)%float eqn:Hr;
      [|apply IH].
    intros H. injection H as <-.
    destruct c as [s | s | | s m e]; try reflexivity; exfalso.
    + destruct c0 as [s0 | s0 | | s0 m0 e0]; destruct s; try destruct s0;
        discriminate Hr.
    + destruct c0; discriminate Hr.
Qed.

(** X6: [limit] never returns an infinity or a NaN. *)
Theorem limit_returns_finite (fuel : nat) (st : S) (v : float) :
  limit sequence fuel st = Ok (Some v) -> F.is_finite v = true.
Proof.
  unfold limit. destruct (sequence st) as [c0 st' | | e]; try discriminate.
  apply limit_loop_finite.
Qed.

End LimitFacts.

(** ** abs_summation *)

Section SummationFacts.

Variable S : Type.
Variable sequence : S -> step float S.

Lemma summation_loop_goes_on (fuel : nat) (st st' : S) (s t : float) :
  sequence st = Yield t st' ->
  summation_goes_on (s, t) = true ->
  abs_summation_loop sequence (Datatypes.S fuel) st s
  = abs_summation_loop sequence fuel st' (s + t)%float.
Proof.
  intros Hy H. unfold summation_goes_on in H.
  apply andb_true_iff in H as [H Hr]. apply andb_true_iff in H as [Ht Hs].
  apply negb_true_iff in Hs, Hr.
  simpl. rewrite Hy, Ht. simpl. unfold pydiv. rewrite Hs. simpl. now rewrite Hr.
Qed.

(** The loop after the terms of [mid] have been added to [s]. *)
Lemma summation_loop_run (mid : list float) (st st' : S) (s : float) (fuel : nat) :
  yields sequence st mid st' ->
  forallb summation_goes_on (combine (running s mid) mid) = true ->
  abs_summation_loop sequence (length mid + fuel) st s
  = abs_summation_loop sequence fuel st' (fold_left F.add mid s).
Proof.
  intros Hy. revert s. induction Hy as [st|st s1 s2 t l Hy1 Hy2 IH]; intros s Hg.
  - reflexivity.
  - cbn [forallb combine running] in Hg. apply andb_true_iff in Hg as [Hg1 Hg].
    cbn [length plus fold_left].
    rewrite (summation_loop_goes_on _ st s1 s t Hy1 Hg1). now apply IH.
Qed.

Lemma summation_prefix (s0 t : float) (mid : list float) (st st' : S) (fuel : nat) :
  yields sequence st (s0 :: mid ++ [t]) st' ->
  summation_exhausts (s0 :: mid) = true ->
  (length mid < fuel)%nat ->
  exists st1 st2 fuel',
    sequence st1 = Yield t st2
    /\ abs_summation sequence fuel st
       = abs_summation_loop sequence (Datatypes.S fuel') st1
           (fold_left F.add mid s0).
Proof.
  intros Hy Hg Hf.
  inversion Hy as [|s1 s2 s3 a l Hy1 Hy2]; subst.
  assert (Hsplit : exists st1, yields sequence s2 mid st1
                               /\ yields sequence st1 [t] st').
  { clear - Hy2. revert s2 Hy2. induction mid as [|c mid IH]; intros s2 Hy2.
    - exists s2. split; [constructor|exact Hy2].
    - inversion Hy2 as [|x1 x2 x3 a l H1 H2]; subst.
      destruct (IH x2 H2) as (st1 & Ha & Hb).
      exists st1. split; [|exact Hb]. eapply yields_cons; eassumption. }
  destruct Hsplit as (st1 & Hmid & Hlast).
  inversion Hlast as [|x1 x2 x3 a l H1 H2]; subst.
  exists st1, x2, (fuel - length mid - 1)%nat. split; [exact H1|].
  unfold abs_summation. rewrite Hy1.
  replace fuel with (length mid + Datatypes.S (fuel - length mid - 1))%nat at 1 by lia.
  now apply summation_loop_run.
Qed.

(** X9: [abs_summation] returns the sum, added from the left, of the elements
    up to the first one that is negligible against it. *)
Theorem abs_summation_first_negligible
        (s0 t : float) (mid : list float) (st st' : S) (fuel : nat) :
  yields sequence st (s0 :: mid ++ [t]) st' ->
  summation_exhausts (s0 :: mid) = true ->
  (F.zero <= t)%float = true ->
  (fold_left F.add (mid ++ [t]) s0 == F.zero)%float = false ->
  (F.div t (fold_left F.add (mid ++ [t]) s0) <= EPSILON)%float = true ->
  (length mid < fuel)%nat ->
  abs_summation sequence fuel st = Ok (Some (fold_left F.add (mid ++ [t]) s0)).
Proof.
  intros Hy Hg Ht Hs Hr Hf.
  destruct (summation_prefix s0 t mid st st' fuel Hy Hg Hf)
    as (st1 & st2 & fuel' & Hy1 & ->).
  rewrite fold_left_app in Hs, Hr |- *. cbn [fold_left] in Hs, Hr |- *.
  simpl. rewrite Hy1, Ht. simpl. unfold pydiv. rewrite Hs. simpl. now rewrite Hr.
Qed.

(** X10: an element after the first that is negative or NaN, when the loop
    reaches it, fails the assertion. *)
Theorem abs_summation_asserts
        (s0 t : float) (mid : list float) (st st' : S) (fuel : nat) :
  yields sequence st (s0 :: mid ++ [t]) st' ->
  summation_exhausts (s0 :: mid) = true ->
  (F.zero <= t)%float = false ->
  (length mid < fuel)%nat ->
  abs_summation sequence fuel st = Raise AssertionError.
Proof.
  intros Hy Hg Ht Hf.
  destruct (summation_prefix s0 t mid st st' fuel Hy Hg Hf)
    as (st1 & st2 & fuel' & Hy1 & ->).
  simpl. now rewrite Hy1, Ht.
Qed.

(** X11: when the sum is zero after a term, the division of the stopping test
    raises. *)
Theorem abs_summation_zero_sum
        (s0 t : float) (mid : list float) (st st' : S) (fuel : nat) :
  yields sequence st (s0 :: mid ++ [t]) st' ->
  summation_exhausts (s0 :: mid) = true ->
  (F.zero <= t)%float = true ->
  (fold_left F.add (mid ++ [t]) s0 == F.zero)%float = true ->
  (length mid < fuel)%nat ->
  abs_summation sequence fuel st = Raise ZeroDivisionError.
Proof.
  intros Hy Hg Ht Hs Hf.
  destruct (summation_prefix s0 t mid st st' fuel Hy Hg Hf)
    as (st1 & st2 & fuel' & Hy1 & ->).
  rewrite fold_left_app in Hs. cbn [fold_left] in Hs.
  simpl. rewrite Hy1, Ht. simpl. unfold pydiv. now rewrite Hs.
Qed.

Lemma summation_loop_value (fuel : nat) (st : S) (s v : float) :
  abs_summation_loop sequence fuel st s = Ok (Some v) ->
  F.is_nan v = false /\ (v == F.zero)%float = false.
Proof.
  revert st s. induction fuel as [|fuel IH]; intros st s; simpl; [discriminate|].
  destruct (sequence st) as [t st' | | e]; try discriminate.
  destruct (F.zero <= t)%float; [|discriminate]. simpl.
  unfold pydiv. destruct (s + t == F.zero)%float eqn:Hz; [discriminate|]. simpl.
  destruct (F.div t (s + t) <= EPSILON)%float eqn:Hr; [|apply IH].
  intros H. injection H as <-. split; [|exact Hz].
  destruct (s + t)%float; try reflexivity. destruct t; discriminate Hr.
Qed.

Lemma summation_loop_partial_sum (fuel : nat) (st : S) (s v : float) :
  abs_summation_loop sequence fuel st s = Ok (Some v) ->
  exists k, nth_yield (partial_sums sequence) k (st, Some s) = Some v.
Proof.
  revert st s. induction fuel as [|fuel IH]; intros st s; simpl; [discriminate|].
  destruct (sequence st) as [t st' | | e] eqn:Hy; try discriminate.
  destruct (F.zero <= t)%float; [|discriminate]. simpl.
  unfold pydiv. destruct (s + t == F.zero)%float; [discriminate|]. simpl.
  destruct (F.div t (s + t) <= EPSILON)%float.
  - intros H. injection H as <-. exists 0%nat.
    unfold nth_yield, partial_sums. simpl. now rewrite Hy.
  - intros H. destruct (IH st' (s + t)%float H) as [k Hk].
    assert (E : partial_sums sequence (st, Some s)
                = Yield (s + t)%float (st', Some (s + t)%float)).
    { unfold partial_sums. simpl. now rewrite Hy. }
    exists (Datatypes.S k). unfold nth_yield in *.
    change (state_after (partial_sums sequence) (Datatypes.S k) (st, Some s))
      with (match partial_sums sequence (st, Some s) with
            | Yield _ s' => state_after (partial_sums sequence) k s'
            | _ => None
            end).
    rewrite E. exact Hk.
Qed.

(** X12: what [abs_summation] returns is one of the partial sums of the
    sequence, after the first, and is neither NaN nor zero. *)
Theorem abs_summation_is_partial_sum (fuel : nat) (st : S) (v : float) :
  abs_summation sequence fuel st = Ok (Some v) ->
  (exists k, nth_yield (partial_sums sequence) (Datatypes.S k) (st, None) = Some v)
  /\ F.is_nan v = false /\ (v == F.zero)%float = false.
Proof.
  unfold abs_summation.
  destruct (sequence st) as [s0 st' | | e] eqn:Hy; try discriminate.
  intros H. split; [|now apply summation_loop_value with (1 := H)].
  destruct (summation_loop_partial_sum fuel st' s0 v H) as [k Hk].
  assert (E : partial_sums sequence (st, None) = Yield s0 (st', Some s0)).
  { unfold partial_sums. simpl. now rewrite Hy. }
  exists k. unfold nth_yield in *.
  change (state_after (partial_sums sequence) (Datatypes.S k) (st, None))
    with (match partial_sums sequence (st, None) with
          | Yield _ s' => state_after (partial_sums sequence) k s'
          | _ => None
          end).
  rewrite E. exact Hk.
Qed.

End SummationFacts.

(** ** partial_sums *)

Section PartialSumsFacts.

Variable S : Type.
Variable sequence : S -> step float S.

Lemma partial_sums_next (st st' : S) (s t : float) :
  sequence st = Yield t st' ->
  partial_sums sequence (st, Some s)
  = Yield (s + t)%float (st', Some (s + t)%float).
Proof. intros H. unfold partial_sums. simpl. now rewrite H. Qed.

Lemma partial_sums_tail (st st' : S) (s : float) (l : list float) :
  yields sequence st l st' ->
  yields (partial_sums sequence) (st, Some s) (scan s l)
         (st', Some (fold_left F.add l s)).
Proof.
  intros H. revert s. induction H as [st|st s1 s2 t l Hy H IH]; intros s.
  - constructor.
  - cbn [scan fold_left].
    eapply yields_cons; [exact (partial_sums_next st s1 s t Hy)|]. apply IH.
Qed.

Lemma scan_length (s : float) (l : list float) : length (scan s l) = length l.
Proof. revert s. induction l as [|t l IH]; intros s; simpl; [reflexivity|]. now rewrite IH. Qed.

Lemma scan_nth (s : float) (l : list float) (k : nat) :
  (k <= length l)%nat ->
  nth k (s :: scan s l) F.nan = fold_left F.add (firstn k l) s.
Proof.
  revert s k. induction l as [|t l IH]; intros s k Hk.
  - simpl in Hk. replace k with 0%nat by lia. reflexivity.
  - destruct k as [|k]; [reflexivity|]. simpl in Hk.
    cbn [scan nth firstn fold_left].
    destruct k as [|k]; [reflexivity|].
    rewrite <- (IH (s + t)%float (Datatypes.S k)) by lia. reflexivity.
Qed.

(** X13: [partial_sums] yields one sum per element of its input, the [k]-th
    being the first [k + 1] elements added from the left; it ends, or
    raises, where its input does. *)
Theorem partial_sums_run (st st' : S) (s0 : float) (l : list float) :
  yields sequence st (s0 :: l) st' ->
  yields (partial_sums sequence) (st, None) (s0 :: scan s0 l)
         (st', Some (fold_left F.add l s0))
  /\ length (s0 :: scan s0 l) = length (s0 :: l)
  /\ (forall k, (k <= length l)%nat ->
                nth k (s0 :: scan s0 l) F.nan = fold_left F.add (firstn k l) s0)
  /\ (sequence st' = Stop ->
      partial_sums sequence (st', Some (fold_left F.add l s0)) = Stop)
  /\ (forall e, sequence st' = Throw e ->
                partial_sums sequence (st', Some (fold_left F.add l s0)) = Throw e).
Proof.
  intros Hy. inversion Hy as [|x1 x2 x3 a l' H1 H2]; subst.
  split; [|split; [|split; [|split]]].
  - eapply yields_cons; [|apply partial_sums_tail; exact H2].
    unfold partial_sums. simpl. now rewrite H1.
  - simpl. now rewrite scan_length.
  - intros k Hk. now apply scan_nth.
  - intros Hs. unfold partial_sums. simpl. now rewrite Hs.
  - intros e He. unfold partial_sums. simpl. now rewrite He.
Qed.

End PartialSumsFacts.

(** ** continuants *)

Lemma continuant_list_length (c : cstate) (l : list (float * float)) :
  length (continuant_list c l) = length l.
Proof.
  revert c. induction l as [|[n d] l IH]; intros c; [reflexivity|].
  cbn [continuant_list length]. cbv zeta. now rewrite IH.
Qed.

Section ContinuantsRuns.

Variable S : Type.
Variable contfrac : S -> step (float * float) S.

(** X14: [continuants] yields one continuant per term and ends, or raises,
    where the terms do. *)
Theorem continuants_run_outputs (s s' : S) (c : cstate) (terms : list (float * float)) :
  yields contfrac s terms s' ->
  asserted c terms = true ->
  yields (continuants contfrac) (s, c) (continuant_list c terms)
         (s', carried c terms)
  /\ length (continuant_list c terms) = length terms
  /\ (contfrac s' = Stop -> continuants contfrac (s', carried c terms) = Stop)
  /\ (forall e, contfrac s' = Throw e ->
                continuants contfrac (s', carried c terms) = Throw e).
Proof.
  intros Hy. revert c. induction Hy as [s|s s1 s2 [n d] l Hy1 Hy2 IH]; intros c Ha.
  - split; [constructor|]. split; [reflexivity|].
    split; [intros H|intros e H]; unfold continuants; simpl; now rewrite H.
  - cbn [asserted] in Ha. apply andb_true_iff in Ha as [Hq Ha].
    destruct (IH _ Ha) as (IH1 & IH2 & IH3 & IH4).
    cbn [continuant_list carried fold_left length fst snd].
    split; [|split; [now rewrite IH2|split; [exact IH3|exact IH4]]].
    eapply yields_cons; [|exact IH1].
    rewrite (continuants_step S contfrac s s1 c n d Hy1). cbv zeta. now rewrite Hq.
Qed.

(** X15: no continuant is ever yielded with a zero denominator. *)
Theorem continuants_denominators (st st' : S * cstate) (l : list (float * float)) :
  yields (continuants contfrac) st l st' ->
  Forall (fun pq => (snd pq == F.zero)%float = false) l.
Proof.
  intros H. induction H as [st|st s1 s2 [p q] l Hy H IH]; constructor.
  - exact (continuants_yield_nonzero S contfrac st s1 p q Hy).
  - exact IH.
Qed.

(** X16: a first term with a zero denominator and a finite numerator fails the
    assertion. *)
Theorem continuants_zero_denominator (s s' : S) (n d : float) :
  contfrac s = Yield (n, d) s' ->
  (d == F.zero)%float = true -> F.is_finite n = true ->
  continuants contfrac (s, cstate_init) = Throw AssertionError.
Proof.
  intros Hy Hd Hn.
  rewrite (continuants_step S contfrac s s' cstate_init n d Hy). cbv zeta.
  assert (Hq : exists sg, c_q (recurrence cstate_init n d) = S754_zero sg).
  { destruct d as [sd | sd | | sd md ed]; try destruct sd; try discriminate Hd;
      destruct n as [sn | sn | | sn mn en]; try destruct sn; try discriminate Hn;
        eexists; reflexivity. }
  destruct Hq as [sg Hq].
  assert (Hr : (c_q (rescale (recurrence cstate_init n d)) == F.zero)%float = true).
  { unfold rescale. destruct (rescales _); [|rewrite Hq; now destruct sg].
    cbn [scaled c_q]. rewrite Hq. now destruct sg. }
  now rewrite Hr.
Qed.

End ContinuantsRuns.

(** ** Rescaling *)

Lemma ldexp_970 :
  F.ldexp F.one (-970) = S754_finite false 4503599627370496 (-1022).
Proof. vm_compute. reflexivity. Qed.

Lemma mul_EPSILON_finite (s : bool) (m : positive) (e : Z) :
  bounded F.prec F.emax m e = true -> (-1022 <= e)%Z ->
  F.mul (S754_finite s m e) EPSILON = S754_finite s m (e - 52).
Proof.
  intros Hb Hlo. apply andb_true_iff in Hb as [Hc He].
  unfold canonical_mantissa in Hc. apply Z.eqb_eq in Hc.
  apply Z.leb_le in He. unfold F.emax, F.prec in He.
  rewrite fexp_eq in Hc.
  change EPSILON with (S754_finite false 4503599627370496 (-104)).
  unfold F.mul, SFmul. rewrite mul_2_52, xorb_false_r.
  unfold binary_round_aux, shr_fexp.
  unfold Zdigits2 at 1. rewrite digits_shift_52, fexp_eq.
  replace (Z.max (Z.pos (digits2_pos m) + 52 + (e + -104) - 53) (-1074)
           - (e + -104))%Z with 52%Z by lia.
  unfold shr at 1.
  change (shr_record_of_loc (Z.pos (Pos.iter xO m 52)) loc_Exact)
    with {| shr_m := Zpos (Pos.iter xO m 52); shr_r := false; shr_s := false |}.
  rewrite shr_52. cbn [shr_m loc_of_shr_record round_nearest_even].
  replace (e + -104 + 52)%Z with (e - 52)%Z by lia.
  unfold Zdigits2. rewrite fexp_eq.
  replace (Z.max (Z.pos (digits2_pos m) + (e - 52) - 53) (-1074) - (e - 52))%Z
    with 0%Z by lia.
  cbn [shr shr_record_of_loc shr_m].
  replace (e - 52 <=? F.emax - F.prec)%Z with true; [reflexivity|].
  symmetry. apply Z.leb_le. unfold F.emax, F.prec. lia.
Qed.

(** What the multiplication by [EPSILON] does to a float that is zero or of
    magnitude at least [2^-970]. *)
Lemma mul_EPSILON (x : float) :
  scalable x = true ->
  (x * EPSILON)%float
  = match x with
    | S754_finite s m e => S754_finite s m (e - 52)
    | _ => x
    end.
Proof.
  unfold scalable. intros H. apply andb_true_iff in H as [Hv H].
  destruct x as [s | s | | s m e]; try reflexivity;
    try (destruct s; reflexivity).
  apply mul_EPSILON_finite; [exact Hv|].
  rewrite ldexp_970 in H.
  apply orb_true_iff in H as [H|H].
  - destruct s; discriminate H.
  - change (F.abs (S754_finite s m e)) with (S754_finite false m e) in H.
    unfold F.leb, SFleb, SFcompare in H.
    destruct (Z.compare_spec (-1022) e) as [E|E|E]; [lia|lia|discriminate H].
Qed.

(** The quotient of two finite floats depends on their exponents only through
    the difference. *)
Lemma div_shift (sx sy : bool) (mx my : positive) (ex ey k : Z) :
  F.div (S754_finite sx mx (ex - k)) (S754_finite sy my (ey - k))
  = F.div (S754_finite sx mx ex) (S754_finite sy my ey).
Proof.
  unfold F.div, SFdiv, SFdiv_core_binary.
  replace (Zdigits2 (Z.pos mx) + (ex - k) - (Zdigits2 (Z.pos my) + (ey - k)))%Z
    with (Zdigits2 (Z.pos mx) + ex - (Zdigits2 (Z.pos my) + ey))%Z by lia.
  replace (ex - k - (ey - k))%Z with (ex - ey)%Z by lia.
  reflexivity.
Qed.

Lemma div_scaled (p q : float) :
  scalable p = true -> scalable q = true ->
  F.div (p * EPSILON)%float (q * EPSILON)%float = F.div p q.
Proof.
  intros Hp Hq. rewrite (mul_EPSILON p Hp), (mul_EPSILON q Hq).
  destruct p as [sp | sp | | sp mp ep], q as [sq | sq | | sq mq eq];
    try reflexivity.
  apply div_shift.
Qed.

Lemma eqb_zero_scaled (q : float) :
  scalable q = true ->
  ((q * EPSILON)%float == F.zero)%float = (q == F.zero)%float.
Proof.
  intros Hq. rewrite (mul_EPSILON q Hq).
  destruct q as [s | s | | s m e]; reflexivity.
Qed.

(** X17: the multiplication of the four components by [EPSILON] leaves the
    quotients [p/q] and [p0/q0] as they are, and zeros zero, when each
    component is zero or at least [2^-970] in magnitude. *)
Theorem rescale_keeps_quotients (c : cstate) :
  scalable (c_p0 c) = true -> scalable (c_q0 c) = true ->
  scalable (c_p c) = true -> scalable (c_q c) = true ->
  F.div (c_p (rescale c)) (c_q (rescale c)) = F.div (c_p c) (c_q c)
  /\ F.div (c_p0 (rescale c)) (c_q0 (rescale c)) = F.div (c_p0 c) (c_q0 c)
  /\ (c_q (rescale c) == F.zero)%float = (c_q c == F.zero)%float
  /\ (c_p (rescale c) == F.zero)%float = (c_p c == F.zero)%float.
Proof.
  intros Hp0 Hq0 Hp Hq. unfold rescale.
  destruct (rescales c); [|repeat split; reflexivity].
  cbn [scaled c_p c_q c_p0 c_q0].
  repeat split; auto using div_scaled, eqb_zero_scaled.
Qed.

(** ** convergents *)

Section ConvergentsRuns.

Variable S : Type.
Variable contfrac : S -> step (float * float) S.

Local Abbreviation cs := (continuants contfrac).
Local Abbreviation cv := (convergents contfrac).

Lemma pydiv_nonzero (p q : float) :
  (q == F.zero)%float = false -> (p / q)%float = Ok (F.div p q).
Proof. intros H. unfold pydiv. now rewrite H. Qed.

Lemma convergents_keeps_nonzero (st st' : (S * cstate) * vphase) (r : float) :
  cv st = Yield r st' -> retains_nonzero st' = true.
Proof.
  destruct st as [cst [|p0 q0|c]]; unfold convergents.
  - destruct (cs cst) as [[p q] cst'| |e] eqn:E; try discriminate.
    pose proof (continuants_yield_nonzero _ _ _ _ _ _ E) as Hq.
    rewrite (pydiv_nonzero p q Hq). intros H. injection H as _ <-.
    unfold retains_nonzero. simpl. now rewrite Hq.
  - destruct (cs cst) as [[p q] cst'| |e] eqn:E; try discriminate.
    + pose proof (continuants_yield_nonzero _ _ _ _ _ _ E) as Hq.
      destruct (p == F.zero)%float.
      * destruct (p0 / q0)%float; try discriminate.
        intros H. injection H as _ <-. reflexivity.
      * rewrite (pydiv_nonzero p q Hq). intros H. injection H as _ <-.
        unfold retains_nonzero. simpl. now rewrite Hq.
    + destruct (p0 / q0)%float; try discriminate.
      intros H. injection H as _ <-. reflexivity.
  - intros H. injection H as _ <-. reflexivity.
Qed.

Lemma convergents_reaches_nonzero (k : nat) (st0 st : (S * cstate) * vphase) :
  retains_nonzero st0 = true ->
  state_after cv k st0 = Some st -> retains_nonzero st = true.
Proof.
  revert st0. induction k as [|k IH]; intros st0 H0 H.
  - simpl in H. now injection H as <-.
  - simpl in H. destruct (cv st0) as [r st1| |e] eqn:E; try discriminate.
    apply (IH st1); [|exact H]. exact (convergents_keeps_nonzero _ _ _ E).
Qed.

Lemma convergents_throw_source (st : (S * cstate) * vphase) (e : exn) :
  retains_nonzero st = true -> cv st = Throw e -> cs (fst st) = Throw e.
Proof.
  destruct st as [cst [|p0 q0|c]]; unfold convergents, retains_nonzero; simpl;
    intros Hr.
  - destruct (cs cst) as [[p q] cst'| |e'] eqn:E; try discriminate.
    + rewrite (pydiv_nonzero p q (continuants_yield_nonzero _ _ _ _ _ _ E)).
      discriminate.
    + intros H. congruence.
  - apply negb_true_iff in Hr.
    destruct (cs cst) as [[p q] cst'| |e'] eqn:E.
    + destruct (p == F.zero)%float.
      * rewrite (pydiv_nonzero p0 q0 Hr). discriminate.
      * rewrite (pydiv_nonzero p q (continuants_yield_nonzero _ _ _ _ _ _ E)).
        discriminate.
    + rewrite (pydiv_nonzero p0 q0 Hr). discriminate.
    + intros H. congruence.
  - discriminate.
Qed.

Lemma continuants_throw_source (cst : S * cstate) (e : exn) :
  cs cst = Throw e -> e = AssertionError \/ contfrac (fst cst) = Throw e.
Proof.
  unfold continuants. destruct (contfrac (fst cst)) as [[n d] s'| |e'].
  - destruct (_ != F.zero)%float; [discriminate|]. intros H. left. congruence.
  - discriminate.
  - intros H. right. congruence.
Qed.

(** X18: an exception that escapes [convergents] is the failed assertion of
    [continuants] or an exception of [contfrac]: none of its own divisions is
    by zero. *)
Theorem convergents_exceptions (k : nat) (s : S) (st : (S * cstate) * vphase)
        (e : exn) :
  state_after cv k (convergents_init s) = Some st ->
  cv st = Throw e ->
  e = AssertionError \/ contfrac (fst (fst st)) = Throw e.
Proof.
  intros Hk He. apply continuants_throw_source.
  apply convergents_throw_source; [|exact He].
  exact (convergents_reaches_nonzero k (convergents_init s) st eq_refl Hk).
Qed.

Lemma last_cons_default {A : Type} (l : list A) (a b : A) :
  last (a :: l) b = last l a.
Proof.
  revert a b. induction l as [|x l IH]; intros a b; [reflexivity|].
  change (last (a :: x :: l) b) with (last (x :: l) b).
  now rewrite (IH x b), (IH x a).
Qed.

Lemma convergents_for_run (terms : list (float * float)) (s s' : S) (c : cstate)
      (p0 q0 : float) :
  yields contfrac s terms s' ->
  asserted c terms = true ->
  forallb nonzero_numerator (continuant_list c terms) = true ->
  yields cv ((s, c), VFor p0 q0) (map ratio (continuant_list c terms))
         ((s', carried c terms),
          VFor (fst (last (continuant_list c terms) (p0, q0)))
               (snd (last (continuant_list c terms) (p0, q0)))).
Proof.
  intros Hy. revert c p0 q0.
  induction Hy as [s|s s1 s2 [n d] l Hy1 Hy2 IH]; intros c p0 q0 Ha Hn.
  - constructor.
  - cbn [asserted] in Ha. apply andb_true_iff in Ha as [Hq Ha].
    cbn [continuant_list forallb] in Hn. cbv zeta in Hn.
    apply andb_true_iff in Hn as [Hp Hn].
    unfold nonzero_numerator in Hp. cbn [fst] in Hp.
    apply negb_true_iff in Hp.
    set (c' := rescale (recurrence c n d)) in *.
    assert (Hc : cs (s, c) = Yield (c_p c', c_q c') (s1, c')).
    { rewrite (continuants_step S contfrac s s1 c n d Hy1). cbv zeta.
      fold c'. now rewrite Hq. }
    change (continuant_list c ((n, d) :: l))
      with ((c_p c', c_q c') :: continuant_list c' l).
    change (carried c ((n, d) :: l)) with (carried c' l).
    cbn [map]. eapply yields_cons.
    + rewrite (convergents_next S contfrac _ _ p0 q0 _ _ Hc Hp). reflexivity.
    + specialize (IH c' (c_p c') (c_q c') Ha Hn).
      rewrite last_cons_default. exact IH.
Qed.

End ConvergentsRuns.



(** ** The incomplete gamma functions *)

Section GammaDomain.

Variables math_log math_exp math_lgamma : float -> exn + float.
Variable MAXLOG : float.

Local Abbreviation below := (gamma_below math_log math_exp math_lgamma MAXLOG).
Local Abbreviation above := (gamma_above math_log math_exp math_lgamma MAXLOG).

Lemma nan_outside_domain (a x : float) :
  F.is_nan a || F.is_nan x = true ->
  ((F.zero < a)%float && (F.zero <= x)%float) = false.
Proof.
  intros H. apply orb_true_iff in H as [H|H].
  - destruct a; try discriminate H. reflexivity.
  - destruct x; try discriminate H. apply andb_false_r.
Qed.

Lemma below_outside_domain (depth fuel : nat) (a x : float) :
  ((F.zero < a)%float && (F.zero <= x)%float) = false ->
  below (S depth) fuel a x = Raise AssertionError.
Proof.
  intros H. rewrite below_unfold.
  destruct (F.zero < a)%float; [|reflexivity].
  simpl in H. now rewrite H.
Qed.

Lemma above_outside_domain (depth fuel : nat) (a x : float) :
  ((F.zero < a)%float && (F.zero <= x)%float) = false ->
  above (S depth) fuel a x = Raise AssertionError.
Proof.
  intros H. rewrite above_unfold.
  destruct (F.zero < a)%float; [|reflexivity].
  simpl in H. now rewrite H.
Qed.

(** X21: outside [0 < a], [0 <= x] both functions raise [AssertionError]; a NaN
    argument is outside; what is returned is returned for arguments
    inside. *)
Theorem gamma_domain (depth fuel : nat) (a x : float) :
  (((F.zero < a)%float && (F.zero <= x)%float) = false ->
   below (S depth) fuel a x = Raise AssertionError
   /\ above (S depth) fuel a x = Raise AssertionError)
  /\ (F.is_nan a || F.is_nan x = true ->
      below (S depth) fuel a x = Raise AssertionError
      /\ above (S depth) fuel a x = Raise AssertionError)
  /\ (forall v, below (S depth) fuel a x = Ok v \/ above (S depth) fuel a x = Ok v ->
                (F.zero < a)%float = true /\ (F.zero <= x)%float = true
                /\ F.is_nan a = false /\ F.is_nan x = false).
Proof.
  split; [|split].
  - intros H. split; [now apply below_outside_domain|now apply above_outside_domain].
  - intros H. apply nan_outside_domain in H.
    split; [now apply below_outside_domain|now apply above_outside_domain].
  - intros v H.
    destruct ((F.zero < a)%float && (F.zero <= x)%float) eqn:E.
    + apply andb_true_iff in E as [Ha Hx]. split; [exact Ha|]. split; [exact Hx|].
      split; [exact (proj2 (lt_not_nan _ _ Ha))|exact (proj2 (le_not_nan _ _ Hx))].
    + rewrite (below_outside_domain depth fuel a x E),
        (above_outside_domain depth fuel a x E) in H.
      destruct H; discriminate.
Qed.

(** X22: the series underflows: [gamma_below] is [0.] and [gamma_above] [1.]. *)
Theorem below_underflow (depth fuel : nat) (a x w : float) :
  (F.zero < a)%float = true -> (F.zero <= x)%float = true ->
  (x <= F.max F.one a)%float = true ->
  exponent math_log math_lgamma a x = Ok w ->
  (w < - MAXLOG)%float = true ->
  below (1 + depth) fuel a x = Ok F.zero
  /\ above (2 + depth) fuel a x = Ok F.one.
Proof.
  intros Ha Hx Hle Hw Hu.
  assert (Hb : forall d, below (S d) fuel a x = Ok F.zero).
  { intros d. rewrite below_unfold, Ha, Hx. cbn [bind assert].
    destruct (x == F.zero)%float; [reflexivity|].
    rewrite (not_gt_of_le _ _ Hle). unfold below_series.
    rewrite Hw. cbn [bind]. now rewrite Hu. }
  split; [apply Hb|].
  change (2 + depth)%nat with (S (S depth)).
  rewrite above_unfold, Ha, Hx. cbn [bind assert].
  rewrite Hle, (Hb depth). reflexivity.
Qed.

Lemma exponent_raises_series (fuel : nat) (a x : float) (e : exn) :
  exponent math_log math_lgamma a x = Raise e ->
  below_series math_log math_exp math_lgamma MAXLOG fuel a x = Raise e
  /\ above_fraction math_log math_exp math_lgamma MAXLOG fuel a x = Raise e.
Proof. intros H. unfold below_series, above_fraction. rewrite H. split; reflexivity. Qed.

Lemma exp_raises_series (fuel : nat) (a x w : float) (e : exn) :
  exponent math_log math_lgamma a x = Ok w ->
  (w < - MAXLOG)%float = false ->
  math_exp w = inl e ->
  below_series math_log math_exp math_lgamma MAXLOG fuel a x = Raise e
  /\ above_fraction math_log math_exp math_lgamma MAXLOG fuel a x = Raise e.
Proof.
  intros H Hu He. unfold below_series, above_fraction. rewrite H. simpl.
  rewrite Hu, He. split; reflexivity.
Qed.

Lemma series_raises (depth fuel : nat) (a x : float) (e : exn) :
  (F.zero < a)%float = true -> (F.zero <= x)%float = true ->
  (x == F.zero)%float = false ->
  below_series math_log math_exp math_lgamma MAXLOG fuel a x = Raise e ->
  above_fraction math_log math_exp math_lgamma MAXLOG fuel a x = Raise e ->
  below (2 + depth) fuel a x = Raise e /\ above (2 + depth) fuel a x = Raise e.
Proof.
  intros Ha Hx Hz Hb Hf.
  assert (H1b : forall d, (x > F.max F.one a)%float = false ->
                          below (S d) fuel a x = Raise e).
  { intros d Hgt. rewrite below_unfold, Ha, Hx. cbn [bind assert].
    now rewrite Hz, Hgt. }
  assert (H1a : forall d, (x <= F.max F.one a)%float = false ->
                          above (S d) fuel a x = Raise e).
  { intros d Hle. rewrite above_unfold, Ha, Hx. cbn [bind assert].
    now rewrite Hle. }
  change (2 + depth)%nat with (S (S depth)). split.
  - destruct (x > F.max F.one a)%float eqn:Hgt; [|now apply H1b].
    rewrite below_unfold, Ha, Hx. cbn [bind assert]. rewrite Hz, Hgt.
    now rewrite (H1a depth (gt_excludes_le _ _ Hgt)).
  - destruct (x <= F.max F.one a)%float eqn:Hle; [|now apply H1a].
    rewrite above_unfold, Ha, Hx. cbn [bind assert]. rewrite Hle.
    now rewrite (H1b depth (not_gt_of_le _ _ Hle)).
Qed.

(** X23: an exception of [math.log], [math.lgamma] or [math.exp] escapes from
    both functions. *)
Theorem gamma_library_errors (depth fuel : nat) (a x : float) (e : exn) :
  (F.zero < a)%float = true -> (F.zero <= x)%float = true ->
  (x == F.zero)%float = false ->
  (math_log x = inl e
   \/ (exists lx, math_log x = inr lx /\ math_lgamma a = inl e)
   \/ (exists w, exponent math_log math_lgamma a x = Ok w
                 /\ (w < - MAXLOG)%float = false /\ math_exp w = inl e)) ->
  below (2 + depth) fuel a x = Raise e /\ above (2 + depth) fuel a x = Raise e.
Proof.
  intros Ha Hx Hz H.
  assert (Hs : below_series math_log math_exp math_lgamma MAXLOG fuel a x = Raise e
               /\ above_fraction math_log math_exp math_lgamma MAXLOG fuel a x = Raise e).
  { destruct H as [H|[(lx & Hl & Hg)|(w & Hw & Hu & He)]].
    - apply exponent_raises_series. unfold exponent. now rewrite H.
    - apply exponent_raises_series. unfold exponent. now rewrite Hl, Hg.
    - now apply exp_raises_series with (w := w). }
  destruct Hs as [Hb Hf]. now apply series_raises.
Qed.

End GammaDomain.

(** ** The generators of the incomplete gamma functions *)



Section Positive.

Local Open Scope Z_scope.





End Positive.



(** ** Sequences that become constant *)

Lemma nth_yield_step {A S : Type} (next : S -> step A S) (k : nat) (s s' : S) (a : A) :
  next s = Yield a s' -> nth_yield next (Datatypes.S k) s = nth_yield next k s'.
Proof. intros H. unfold nth_yield. cbn [state_after]. now rewrite H. Qed.

Lemma constant_from_step {A S : Type} (next : S -> step A S) (st : S) (c : A) :
  constant_from next st c ->
  exists st', next st = Yield c st' /\ constant_from next st' c.
Proof.
  intros H. pose proof (H 0%nat) as H0. unfold nth_yield in H0.
  cbn [state_after] in H0.
  destruct (next st) as [a st'| |e] eqn:E; try discriminate H0.
  injection H0 as ->. exists st'. split; [reflexivity|].
  intros k. rewrite <- (nth_yield_step next k st st' c E). apply H.
Qed.

Lemma constant_repeat {A : Type} (c : A) : constant_from (iter_repeat c) tt c.
Proof.
  intros k. induction k as [|k IH]; [reflexivity|].
  now rewrite (nth_yield_step (iter_repeat c) k tt tt c eq_refl).
Qed.

Lemma yields_nth {A S : Type} (next : S -> step A S) (s s' : S) (l : list A) :
  yields next s l s' ->
  forall k, nth_yield next (length l + k) s = nth_yield next k s'.
Proof.
  intros H. induction H as [s|s s1 s2 a l Hy H IH]; intros k; [reflexivity|].
  cbn [length Nat.add]. now rewrite (nth_yield_step next _ s s1 a Hy).
Qed.

Lemma yields_nth_lt {A S : Type} (next : S -> step A S) (s s' : S) (l : list A) (d : A) :
  yields next s l s' ->
  forall k, (k < length l)%nat -> nth_yield next k s = Some (nth k l d).
Proof.
  intros H. induction H as [s|s s1 s2 a l Hy H IH]; intros k Hk;
    [inversion Hk|].
  destruct k as [|k].
  - unfold nth_yield. cbn [state_after]. now rewrite Hy.
  - rewrite (nth_yield_step next k s s1 a Hy). apply IH. simpl in Hk. lia.
Qed.

Section LimitConstant.

Variable S : Type.
Variable sequence : S -> step float S.

Lemma relerr_self_finite (c : float) :
  F.is_finite c = true -> (c == F.zero)%float = false ->
  relerr c c = Ok F.zero.
Proof.
  intros Hc Hz. destruct c as [s | s | | s m e]; try discriminate Hc.
  - destruct s; discriminate Hz.
  - unfold relerr. rewrite sub_same_finite. destruct s; reflexivity.
Qed.

Lemma relerr_self_not_finite (c : float) :
  F.is_finite c = false -> relerr c c = Ok F.nan.
Proof.
  destruct c as [s | s | | s m e]; try discriminate; intros _;
    try destruct s; reflexivity.
Qed.

Lemma not_finite_nonzero (c : float) :
  F.is_finite c = false -> (c == F.zero)%float = false.
Proof.
  destruct c as [s | s | | s m e]; try discriminate; intros _;
    try destruct s; reflexivity.
Qed.

Lemma limit_loop_constant (st : S) (c0 c : float) (fuel : nat) :
  constant_from sequence st c -> F.is_finite c = true ->
  limit_loop sequence (2 + fuel) st c0
  = if (c != F.zero)%float && (c0 == F.zero)%float
    then Raise ZeroDivisionError else Ok (Some c).
Proof.
  intros H Hc.
  destruct (constant_from_step sequence st c H) as (st1 & E1 & H1).
  destruct (constant_from_step sequence st1 c H1) as (st2 & E2 & H2).
  cbn [Nat.add limit_loop]. rewrite E1.
  destruct (c == F.zero)%float eqn:Hz; [reflexivity|]. cbn [negb andb].
  unfold relerr at 1. unfold pydiv.
  destruct (c0 == F.zero)%float; [reflexivity|]. cbn [bind].
  destruct (_ <= EPSILON)%float; [reflexivity|].
  rewrite E2, Hz, (relerr_self_finite c Hc Hz). reflexivity.
Qed.

Lemma limit_loop_diverges (st : S) (c : float) (fuel : nat) :
  constant_from sequence st c -> F.is_finite c = false ->
  limit_loop sequence fuel st c = Unfinished.
Proof.
  intros H Hc. revert st H. induction fuel as [|fuel IH]; intros st H;
    [reflexivity|].
  destruct (constant_from_step sequence st c H) as (st1 & E1 & H1).
  cbn [limit_loop]. rewrite E1, (not_finite_nonzero c Hc),
    (relerr_self_not_finite c Hc).
  cbn [bind]. change (F.nan <= EPSILON)%float with false. cbv iota.
  now apply IH.
Qed.

(** X7: on a constant sequence [limit] returns the constant, at the second
    element, when it is finite, and never returns when it is an infinity or
    a NaN. *)
Theorem limit_constant (st : S) (c : float) :
  constant_from sequence st c ->
  (F.is_finite c = true ->
   forall fuel, limit sequence (Datatypes.S fuel) st = Ok (Some c))
  /\ (F.is_finite c = false ->
      forall fuel, limit sequence fuel st = Unfinished).
Proof.
  intros H.
  destruct (constant_from_step sequence st c H) as (st1 & E1 & H1).
  destruct (constant_from_step sequence st1 c H1) as (st2 & E2 & H2).
  unfold limit. rewrite E1. split.
  - intros Hc fuel. cbn [limit_loop]. rewrite E2.
    destruct (c == F.zero)%float eqn:Hz; [reflexivity|].
    now rewrite (relerr_self_finite c Hc Hz).
  - intros Hc fuel. now apply limit_loop_diverges.
Qed.

Lemma limit_loop_terminates (l : list float) (st st' : S) (c0 c : float)
      (fuel : nat) :
  yields sequence st l st' ->
  constant_from sequence st' c -> F.is_finite c = true ->
  (length l + 2 <= fuel)%nat ->
  (exists v, limit_loop sequence fuel st c0 = Ok (Some v))
  \/ limit_loop sequence fuel st c0 = Raise ZeroDivisionError.
Proof.
  intros Hy. revert c0 fuel.
  induction Hy as [s|s s1 s2 c1 l Hy1 Hy2 IH]; intros c0 fuel H Hc Hf.
  - replace fuel with (2 + (fuel - 2))%nat by (simpl in Hf; lia).
    rewrite (limit_loop_constant s c0 c (fuel - 2) H Hc).
    destruct (_ && _); [right; reflexivity|left; eexists; reflexivity].
  - destruct fuel as [|fuel]; [simpl in Hf; lia|].
    cbn [limit_loop]. rewrite Hy1.
    destruct (c1 == F.zero)%float; [left; eexists; reflexivity|].
    unfold relerr, pydiv.
    destruct (c0 == F.zero)%float; [right; reflexivity|]. cbn [bind].
    destruct (_ <= EPSILON)%float; [left; eexists; reflexivity|].
    apply IH; [exact H|exact Hc|simpl in Hf; lia].
Qed.

(** X8: on a sequence that is constant, and finite, after finitely many elements,
    [limit] returns a float or divides by zero: it does not run for ever and
    does not return [None]. *)
Theorem limit_terminates (l : list float) (st st' : S) (c : float) (fuel : nat) :
  yields sequence st l st' ->
  constant_from sequence st' c -> F.is_finite c = true ->
  (length l + 2 <= fuel)%nat ->
  (exists v, limit sequence fuel st = Ok (Some v))
  \/ limit sequence fuel st = Raise ZeroDivisionError.
Proof.
  intros Hy H Hc Hf. unfold limit.
  inversion Hy as [s E1 E2 E3|s s1 s2 c0 l' Hy1 Hy2]; subst.
  - destruct (constant_from_step sequence st' c H) as (st1 & E1 & H1).
    rewrite E1.
    apply limit_loop_terminates with (l := []) (st' := st1) (c := c);
      [constructor|exact H1|exact Hc|exact Hf].
  - rewrite Hy1.
    apply limit_loop_terminates with (l := l') (st' := st') (c := c);
      [exact Hy2|exact H|exact Hc|simpl in Hf; lia].
Qed.

End LimitConstant.

Section ConvergentsFinite.

Variable S : Type.
Variable contfrac : S -> step (float * float) S.

Local Abbreviation cs := (continuants contfrac).
Local Abbreviation cv := (convergents contfrac).

Lemma convergents_exhausted (cst : S * cstate) (p0 q0 : float) (k : nat) :
  cs cst = Stop -> (q0 == F.zero)%float = false ->
  nth_yield cv k (cst, VFor p0 q0) = Some (F.div p0 q0).
Proof.
  intros Hs Hq.
  assert (E : cv (cst, VFor p0 q0)
              = Yield (F.div p0 q0) (cst, VForever (F.div p0 q0))).
  { unfold convergents. now rewrite Hs, (pydiv_nonzero p0 q0 Hq). }
  destruct k as [|k].
  - unfold nth_yield. cbn [state_after]. now rewrite E.
  - unfold nth_yield. cbn [state_after]. rewrite E.
    destruct (convergents_forever S contfrac k cst (F.div p0 q0)) as [H1 H2].
    unfold nth_yield in H2. exact H2.
Qed.

Lemma yields_keeps_nonzero (st st' : (S * cstate) * vphase) (l : list float) :
  yields cv st l st' -> retains_nonzero st = true -> retains_nonzero st' = true.
Proof.
  intros H. induction H as [st|st st1 st2 r l Hy H IH]; intros H0; [exact H0|].
  apply IH. exact (convergents_keeps_nonzero _ _ _ _ _ Hy).
Qed.

Lemma convergents_finite_run (s s1 s' : S) (n d : float)
        (terms : list (float * float)) :
  contfrac s = Yield (n, d) s1 ->
  yields contfrac s1 terms s' ->
  contfrac s' = Stop ->
  asserted cstate_init ((n, d) :: terms) = true ->
  forallb nonzero_numerator
          (tl (continuant_list cstate_init ((n, d) :: terms))) = true ->
  exists st,
    yields cv (convergents_init s)
           (map ratio (continuant_list cstate_init ((n, d) :: terms))) st
    /\ constant_from cv st
         (ratio (last (continuant_list cstate_init ((n, d) :: terms))
                      (F.nan, F.nan))).
Proof.
  intros Hy1 Hy Hs Ha Hn.
  cbn [asserted] in Ha. apply andb_true_iff in Ha as [Hq Ha].
  cbn [continuant_list tl] in Hn. cbv zeta in Hn.
  set (c' := rescale (recurrence cstate_init n d)) in *.
  change (continuant_list cstate_init ((n, d) :: terms))
    with ((c_p c', c_q c') :: continuant_list c' terms).
  assert (Hc : cs (s, cstate_init) = Yield (c_p c', c_q c') (s1, c')).
  { rewrite (continuants_step S contfrac s s1 cstate_init n d Hy1). cbv zeta.
    fold c'. now rewrite Hq. }
  pose proof (convergents_for_run S contfrac terms s1 s' c' (c_p c') (c_q c')
                Hy Ha Hn) as Hrun.
  set (pq := last (continuant_list c' terms) (c_p c', c_q c')) in *.
  exists ((s', carried c' terms), VFor (fst pq) (snd pq)).
  assert (Hall : yields cv (convergents_init s)
                   (map ratio ((c_p c', c_q c') :: continuant_list c' terms))
                   ((s', carried c' terms), VFor (fst pq) (snd pq))).
  { cbn [map]. eapply yields_cons; [|exact Hrun].
    unfold convergents_init.
    rewrite (convergents_first S contfrac _ _ _ _ Hc). reflexivity. }
  split; [exact Hall|]. intros k.
  rewrite last_cons_default. fold pq.
  assert (Hnz : retains_nonzero ((s', carried c' terms), VFor (fst pq) (snd pq))
                = true).
  { exact (yields_keeps_nonzero _ _ _ Hall eq_refl). }
  unfold retains_nonzero in Hnz. cbn [snd] in Hnz.
  apply negb_true_iff in Hnz.
  apply convergents_exhausted; [|exact Hnz].
  unfold continuants. cbn [fst]. now rewrite Hs.
Qed.

Lemma nth_length_last {A : Type} (l : list A) (a d : A) :
  nth (length l) (a :: l) d = last (a :: l) d.
Proof.
  revert a. induction l as [|x l IH]; intros a; [reflexivity|].
  change (nth (length l) (x :: l) d = last (x :: l) d). apply IH.
Qed.

(** X19: on a continued fraction of finitely many terms whose continuants after
    the first have nonzero numerators, the [k]-th convergent is the ratio of
    the [k]-th continuant, and of the last one once the terms are used up. *)
Theorem convergents_finite_fraction (s s1 s' : S) (n d : float)
        (terms : list (float * float)) (k : nat) :
  contfrac s = Yield (n, d) s1 ->
  yields contfrac s1 terms s' ->
  contfrac s' = Stop ->
  asserted cstate_init ((n, d) :: terms) = true ->
  forallb nonzero_numerator
          (tl (continuant_list cstate_init ((n, d) :: terms))) = true ->
  nth_yield cv k (convergents_init s)
  = Some (ratio (nth (Nat.min k (length terms))
                     (continuant_list cstate_init ((n, d) :: terms))
                     (F.nan, F.nan))).
Proof.
  intros Hy1 Hy Hs Ha Hn.
  destruct (convergents_finite_run s s1 s' n d terms Hy1 Hy Hs Ha Hn)
    as (st & Hrun & Hc).
  pose proof (continuant_list_length cstate_init ((n, d) :: terms)) as Hl.
  set (cl := continuant_list cstate_init ((n, d) :: terms)) in *.
  cbn [length] in Hl.
  destruct (Nat.le_gt_cases k (length terms)) as [Hk|Hk].
  - rewrite Nat.min_l by exact Hk.
    rewrite (yields_nth_lt cv _ _ _ (ratio (F.nan, F.nan)) Hrun k)
      by (rewrite length_map, Hl; lia).
    now rewrite map_nth.
  - rewrite Nat.min_r by lia.
    replace k with (length (map ratio cl) + (k - Datatypes.S (length terms)))%nat
      by (rewrite length_map, Hl; lia).
    rewrite (yields_nth cv _ _ _ Hrun), Hc. f_equal. f_equal.
    unfold cl. cbn [continuant_list]. cbv zeta.
    rewrite <- nth_length_last. f_equal.
    apply continuant_list_length.
Qed.

(** X20: [limit(convergents(contfrac))] on such a fraction with a finite last
    convergent returns a float or divides by zero; it does not run for
    ever. *)
Theorem limit_convergents_finite (s s1 s' : S) (n d : float)
        (terms : list (float * float)) (fuel : nat) :
  contfrac s = Yield (n, d) s1 ->
  yields contfrac s1 terms s' ->
  contfrac s' = Stop ->
  asserted cstate_init ((n, d) :: terms) = true ->
  forallb nonzero_numerator
          (tl (continuant_list cstate_init ((n, d) :: terms))) = true ->
  F.is_finite (ratio (last (continuant_list cstate_init ((n, d) :: terms))
                           (F.nan, F.nan))) = true ->
  (length terms + 2 <= fuel)%nat ->
  (exists v, limit cv fuel (convergents_init s) = Ok (Some v))
  \/ limit cv fuel (convergents_init s) = Raise ZeroDivisionError.
Proof.
  intros Hy1 Hy Hs Ha Hn Hfin Hf.
  destruct (convergents_finite_run s s1 s' n d terms Hy1 Hy Hs Ha Hn)
    as (st & Hrun & Hc).
  cbn [continuant_list map] in Hrun. cbv zeta in Hrun.
  inversion Hrun as [|s0 st1 s2 r0 l' Hr1 Hr2]; subst.
  unfold limit. rewrite Hr1.
  eapply limit_loop_terminates; [exact Hr2|exact Hc|exact Hfin|].
  rewrite length_map, continuant_list_length. exact Hf.
Qed.

End ConvergentsFinite.

(** ** Witnesses *)

Ltac run_list := repeat (eapply yields_cons; [reflexivity|]); apply yields_nil.

Lemma limit_first_stable_witness :
  limit_exhausts [F.one; F.two] = true
  /\ limit_stops_at F.two F.two = true
  /\ limit iter_list 2 [F.one; F.two; F.two] = Ok (Some F.two).
Proof.
  split; [reflexivity|]. split; [reflexivity|].
  apply (limit_first_stable (list float) iter_list [F.two]
           [F.one; F.two; F.two] [] F.one F.two 2);
    [run_list|reflexivity|reflexivity|simpl; lia].
Defined.

Lemma limit_after_zero_witness :
  limit iter_list 1 [F.zero; F.one] = Raise ZeroDivisionError.
Proof.
  apply (limit_after_zero (list float) iter_list [F.zero; F.one] [F.one] []
           F.zero F.one 0); reflexivity.
Defined.

Lemma limit_returns_finite_witness :
  limit iter_list 2 [F.one; F.two; F.two] = Ok (Some F.two)
  /\ F.is_finite F.two = true.
Proof.
  split; [reflexivity|].
  apply (limit_returns_finite (list float) iter_list 2
           [F.one; F.two; F.two] F.two).
  reflexivity.
Defined.

Lemma limit_constant_witness :
  limit (iter_repeat F.two) 1 tt = Ok (Some F.two)
  /\ limit (iter_repeat F.nan) 7 tt = Unfinished.
Proof.
  split.
  - exact (proj1 (limit_constant unit (iter_repeat F.two) tt F.two
                    (constant_repeat F.two)) eq_refl 0%nat).
  - exact (proj2 (limit_constant unit (iter_repeat F.nan) tt F.nan
                    (constant_repeat F.nan)) eq_refl 7%nat).
Defined.

Lemma limit_terminates_witness :
  (exists v, limit (iter_repeat F.two) 4 tt = Ok (Some v))
  \/ limit (iter_repeat F.two) 4 tt = Raise ZeroDivisionError.
Proof.
  apply (limit_terminates unit (iter_repeat F.two) [F.two; F.two] tt tt F.two 4);
    [run_list|exact (constant_repeat F.two)|reflexivity|simpl; lia].
Defined.

Lemma abs_summation_first_negligible_witness :
  summation_exhausts [F.one; F.one] = true
  /\ abs_summation iter_list 2 [F.one; F.one; F.zero] = Ok (Some F.two).
Proof.
  split; [reflexivity|].
  apply (abs_summation_first_negligible (list float) iter_list
           F.one F.zero [F.one] [F.one; F.one; F.zero] [] 2);
    [run_list|reflexivity|reflexivity|reflexivity|reflexivity|simpl; lia].
Defined.

Lemma abs_summation_asserts_witness :
  (F.zero <= F.of_Z (-1))%float = false
  /\ abs_summation iter_list 2 [F.one; F.one; F.of_Z (-1)] = Raise AssertionError.
Proof.
  split; [reflexivity|].
  apply (abs_summation_asserts (list float) iter_list
           F.one (F.of_Z (-1)) [F.one] [F.one; F.one; F.of_Z (-1)] [] 2);
    [run_list|reflexivity|reflexivity|simpl; lia].
Defined.

Lemma abs_summation_zero_sum_witness :
  abs_summation iter_list 1 [F.zero; F.zero] = Raise ZeroDivisionError.
Proof.
  apply (abs_summation_zero_sum (list float) iter_list
           F.zero F.zero [] [F.zero; F.zero] [] 1);
    [run_list|reflexivity|reflexivity|reflexivity|simpl; lia].
Defined.

Lemma abs_summation_is_partial_sum_witness :
  abs_summation iter_list 2 [F.one; F.one; F.zero] = Ok (Some F.two)
  /\ (exists k, nth_yield (partial_sums iter_list) (S k)
                  ([F.one; F.one; F.zero], None) = Some F.two)
  /\ F.is_nan F.two = false /\ (F.two == F.zero)%float = false.
Proof.
  split; [reflexivity|].
  apply (abs_summation_is_partial_sum (list float) iter_list 2
           [F.one; F.one; F.zero] F.two).
  reflexivity.
Defined.

Lemma partial_sums_run_witness :
  yields (partial_sums iter_list) ([F.one; F.two; F.two], None)
         [F.one; F.of_Z 3; F.of_Z 5] ([], Some (F.of_Z 5))
  /\ partial_sums iter_list ([], Some (F.of_Z 5)) = Stop.
Proof.
  destruct (partial_sums_run (list float) iter_list [F.one; F.two; F.two] []
              F.one [F.two; F.two]) as (H1 & _ & _ & H2 & _); [run_list|].
  split; [exact H1|exact (H2 eq_refl)].
Defined.

Lemma continuants_run_outputs_witness :
  asserted cstate_init two_terms = true
  /\ yields (continuants iter_list) (two_terms, cstate_init)
            [(F.one, F.one); (F.one, F.two)] ([], carried cstate_init two_terms)
  /\ continuants iter_list ([], carried cstate_init two_terms) = Stop.
Proof.
  split; [reflexivity|].
  destruct (continuants_run_outputs (list (float * float)) iter_list
              two_terms [] cstate_init two_terms)
    as (H1 & _ & H2 & _); [run_list|reflexivity|].
  split; [exact H1|exact (H2 eq_refl)].
Defined.

Lemma continuants_denominators_witness :
  Forall (fun pq => (snd pq == F.zero)%float = false)
         [(F.one, F.one); (F.one, F.two)].
Proof.
  apply (continuants_denominators (list (float * float)) iter_list
           (two_terms, cstate_init) ([], carried cstate_init two_terms)).
  run_list.
Defined.

Lemma continuants_zero_denominator_witness :
  continuants iter_list ([(F.one, F.zero)], cstate_init) = Throw AssertionError.
Proof.
  apply (continuants_zero_denominator (list (float * float)) iter_list
           [(F.one, F.zero)] [] F.one F.zero); reflexivity.
Defined.

Lemma rescale_keeps_quotients_witness :
  rescales large_state = true
  /\ c_p (rescale large_state) = F.one
  /\ c_q (rescale large_state) = EPSILON
  /\ F.div (c_p (rescale large_state)) (c_q (rescale large_state))
     = F.div (c_p large_state) (c_q large_state).
Proof.
  split; [reflexivity|]. split; [reflexivity|]. split; [reflexivity|].
  apply (rescale_keeps_quotients large_state); reflexivity.
Defined.

Lemma convergents_exceptions_witness :
  state_after (convergents iter_list) 1 (convergents_init failing_terms)
  = Some (([(F.one, F.of_Z (-1))], recurrence cstate_init F.one F.one),
          VFor F.one F.one)
  /\ convergents iter_list
       (([(F.one, F.of_Z (-1))], recurrence cstate_init F.one F.one),
        VFor F.one F.one) = Throw AssertionError
  /\ (AssertionError = AssertionError
      \/ iter_list [(F.one, F.of_Z (-1))] = Throw AssertionError).
Proof.
  split; [reflexivity|]. split; [reflexivity|].
  apply (convergents_exceptions (list (float * float)) iter_list 1
           failing_terms
           (([(F.one, F.of_Z (-1))], recurrence cstate_init F.one F.one),
            VFor F.one F.one) AssertionError); reflexivity.
Defined.

Lemma convergents_finite_fraction_witness :
  nth_yield (convergents iter_list) 1 (convergents_init two_terms)
  = Some (ratio (F.one, F.two))
  /\ nth_yield (convergents iter_list) 5 (convergents_init two_terms)
     = Some (ratio (F.one, F.two)).
Proof.
  split.
  - apply (convergents_finite_fraction (list (float * float)) iter_list
             two_terms [(F.one, F.one)] [] F.one F.one [(F.one, F.one)] 1);
      [reflexivity|run_list|reflexivity|reflexivity|reflexivity].
  - apply (convergents_finite_fraction (list (float * float)) iter_list
             two_terms [(F.one, F.one)] [] F.one F.one [(F.one, F.one)] 5);
      [reflexivity|run_list|reflexivity|reflexivity|reflexivity].
Defined.

Lemma limit_convergents_finite_witness :
  (exists v, limit (convergents iter_list) 3 (convergents_init two_terms)
             = Ok (Some v))
  \/ limit (convergents iter_list) 3 (convergents_init two_terms)
     = Raise ZeroDivisionError.
Proof.
  apply (limit_convergents_finite (list (float * float)) iter_list
           two_terms [(F.one, F.one)] [] F.one F.one [(F.one, F.one)] 3);
    [reflexivity|run_list|reflexivity|reflexivity|reflexivity|reflexivity
    |simpl; lia].
Defined.

Lemma gamma_domain_witness :
  gamma_below table_log no_exp table_lgamma table_MAXLOG 1 0 (F.of_Z (-1)) F.one
  = Raise AssertionError
  /\ gamma_above table_log no_exp table_lgamma table_MAXLOG 1 0 F.one F.nan
     = Raise AssertionError.
Proof.
  split.
  - exact (proj1 (proj1 (gamma_domain table_log no_exp table_lgamma table_MAXLOG
                           0 0 (F.of_Z (-1)) F.one) eq_refl)).
  - exact (proj2 (proj1 (proj2 (gamma_domain table_log no_exp table_lgamma
                                   table_MAXLOG 0 0 F.one F.nan)) eq_refl)).
Defined.

Lemma below_underflow_witness :
  exponent sample_log sample_lgamma (F.of_Z 1000) F.one
  = Ok (F.of_Z 1000 * F.zero - F.one - lgamma_1000)%float
  /\ gamma_below sample_log no_exp sample_lgamma table_MAXLOG 1 0
       (F.of_Z 1000) F.one = Ok F.zero
  /\ gamma_above sample_log no_exp sample_lgamma table_MAXLOG 2 0
       (F.of_Z 1000) F.one = Ok F.one.
Proof.
  split; [reflexivity|].
  apply (below_underflow sample_log no_exp sample_lgamma table_MAXLOG 0 0
           (F.of_Z 1000) F.one
           (F.of_Z 1000 * F.zero - F.one - lgamma_1000)%float);
    vm_compute; reflexivity.
Defined.

Lemma gamma_library_errors_witness :
  gamma_below table_log no_exp table_lgamma table_MAXLOG 2 0 F.one F.two
  = Raise OverflowError
  /\ gamma_above table_log no_exp table_lgamma table_MAXLOG 2 0 F.one F.two
     = Raise OverflowError.
Proof.
  apply (gamma_library_errors table_log no_exp table_lgamma table_MAXLOG 0 0
           F.one F.two OverflowError);
    [reflexivity|reflexivity|reflexivity|].
  right. right. exists (F.one * log_2 - F.two - F.zero)%float.
  split; [reflexivity|]. split; [vm_compute; reflexivity|reflexivity].
Defined.

